(** * nuxt-scroll-restoration: the scroll-restoration plugin, embedded in Rocq

    The development follows the plugin body (the function given to
    [defineNuxtPlugin]) and the option defaults of [src/module.ts].

    - JavaScript values that can live in [history.state] are the inductive
      type [value]; objects are finite maps from property names to values.
    - The closure variables of the plugin ([isMounted], [poppedState],
      [timeoutHandle], [scrollBarWidth]) and the parts of the browser the
      plugin talks to (clock, pending timers, viewport readings, the
      session history, the log of calls to native primitives) are the
      fields of the record [World].
    - Handlers that cannot throw are functions [World -> World]; the two
      history wrappers can throw and live in the monad [M].
    - Pixel and millisecond quantities that the code knows to be finite
      numbers are integers ([Z]).
    - The [debug] helper only writes to the console; its calls are left
      out. *)

From Stdlib Require Import ZArith Lia.
From stdpp Require Import base option list strings gmap fin_maps pretty.

Set Warnings "-register-all".

Local Open Scope string_scope.
Local Open Scope list_scope.
Local Open Scope Z_scope.

(** ** JavaScript values *)

Module Js.

(** A JavaScript number: a finite one, or one of the three that
    [Number.isFinite] rejects. *)
Inductive num : Type :=
  | Fin (z : Z)
  | NaN
  | PosInf
  | NegInf.

(** The values a history entry's state can hold (what the structured clone
    algorithm keeps): primitives and plain objects. *)
Inductive value : Type :=
  | VUndefined
  | VNull
  | VBool (b : bool)
  | VNum (n : num)
  | VStr (s : string)
  | VObj (fields : gmap string value).

(** [Number.isFinite(v)]: no coercion, true exactly on finite numbers. *)
Definition isFinite (v : value) : bool :=
  match v with
  | VNum (Fin _) => true
  | _ => false
  end.

(** ToBoolean, as used by [&&], [||] and [if]. *)
Definition truthy (v : value) : bool :=
  match v with
  | VUndefined | VNull => false
  | VBool b => b
  | VNum (Fin z) => negb (Z.eqb z 0)
  | VNum NaN => false
  | VNum _ => true
  | VStr s => negb (String.eqb s "")
  | VObj _ => true
  end.

(** [a || b]. *)
Definition or_else (a b : value) : value := if truthy a then a else b.

(** The characters of a string as one-character strings. *)
Fixpoint chars (s : string) : list string :=
  match s with
  | EmptyString => []
  | String c r => String c EmptyString :: chars r
  end.

(** The own enumerable properties of a value, i.e. what [Object.assign]
    copies from a source: the fields of an object, the indexed characters of
    a string, nothing for the other primitives, and nothing for [null] and
    [undefined] (which [Object.assign] skips). *)
Definition own_props (v : value) : gmap string value :=
  match v with
  | VObj m => m
  | VStr s => list_to_map (imap (fun i c => (pretty i, VStr c)) (chars s))
  | _ => ∅
  end.

(** [Object.assign({}, state, { __scrollX: sx, __scrollY: sy })]. *)
Definition assign_scroll (state sx sy : value) : value :=
  VObj (<["__scrollY" := sy]> (<["__scrollX" := sx]> (own_props state))).

(** Property read [v.k] for a data property [k]. Reading from [null] or
    [undefined] is a TypeError ([None]); an absent property reads as
    [undefined]. The members that primitives inherit from their prototypes
    are functions and are not values of this model. *)
Definition get_prop (v : value) (k : string) : option value :=
  match v with
  | VUndefined | VNull => None
  | VStr s =>
      if String.eqb k "length" then Some (VNum (Fin (Z.of_nat (String.length s))))
      else Some (default VUndefined (own_props v !! k))
  | _ => Some (default VUndefined (own_props v !! k))
  end.

End Js.

(** ** Module options ([src/types.ts], [src/module.ts]) *)

Module Config.

(** [ScrollRestorationOptions]: every field is optional. *)
Record ScrollRestorationOptions : Type := mkOptions {
  scrollRestorationTimeoutMs : option Z;
  tryToScrollIntervalMs : option Z;
  debug : option bool
}.

(** The [defaults] block of [defineNuxtModule]. *)
Definition defaults : ScrollRestorationOptions :=
  {| scrollRestorationTimeoutMs := Some 3000;
     tryToScrollIntervalMs := Some 50;
     debug := Some false |}.

(** What [setup] receives as [options]: the user's [scrollRestoration] block
    with every field the user left out taken from [defaults]. *)
Definition resolve_options (user : option ScrollRestorationOptions)
  : ScrollRestorationOptions :=
  match user with
  | None => defaults
  | Some u =>
      {| scrollRestorationTimeoutMs :=
           from_option Some (scrollRestorationTimeoutMs defaults) (scrollRestorationTimeoutMs u);
         tryToScrollIntervalMs :=
           from_option Some (tryToScrollIntervalMs defaults) (tryToScrollIntervalMs u);
         debug := from_option Some (debug defaults) (debug u) |}
  end.

(** [setup]: the value stored in [runtimeConfig.public.scrollRestoration]. *)
Definition setup (options : ScrollRestorationOptions)
  : option ScrollRestorationOptions :=
  Some {| scrollRestorationTimeoutMs := scrollRestorationTimeoutMs options;
          tryToScrollIntervalMs := tryToScrollIntervalMs options;
          debug := debug options |}.

(** [n || d] for an optional number [n]: [undefined] and [0] are falsy. *)
Definition num_or (n : option Z) (d : Z) : Z :=
  match n with
  | Some z => if Z.eqb z 0 then d else z
  | None => d
  end.

(** [const config = useRuntimeConfig().public.scrollRestoration || {}]. *)
Definition plugin_config (rc : option ScrollRestorationOptions)
  : ScrollRestorationOptions :=
  match rc with
  | Some c => c
  | None => {| scrollRestorationTimeoutMs := None;
               tryToScrollIntervalMs := None;
               debug := None |}
  end.

(** [config.scrollRestorationTimeoutMs || 3000]. *)
Definition SCROLL_RESTORATION_TIMEOUT_MS (rc : option ScrollRestorationOptions) : Z :=
  num_or (scrollRestorationTimeoutMs (plugin_config rc)) 3000.

(** [config.tryToScrollIntervalMs || 50]. *)
Definition TRY_TO_SCROLL_INTERVAL_MS (rc : option ScrollRestorationOptions) : Z :=
  num_or (tryToScrollIntervalMs (plugin_config rc)) 50.

(** [config.debug || false]. *)
Definition DEBUG (rc : option ScrollRestorationOptions) : bool :=
  match debug (plugin_config rc) with
  | Some b => b
  | None => false
  end.

End Config.

(** ** The browser and the plugin's closure variables *)

Import Js.

(** The DOM readings the plugin takes. It never writes them: they change
    only when the environment (layout, the user, the browser's reaction to a
    scroll command) changes them. *)
Record Dom : Type := mkDom {
  scrollX : Z;                 (* window.scrollX *)
  scrollY : Z;                 (* window.scrollY *)
  innerWidth : Z;              (* window.innerWidth *)
  innerHeight : Z;             (* window.innerHeight *)
  body_scrollWidth : Z;
  body_offsetWidth : Z;
  html_clientWidth : Z;
  html_scrollWidth : Z;
  html_offsetWidth : Z;
  body_scrollHeight : Z;
  body_offsetHeight : Z;
  html_clientHeight : Z;
  html_scrollHeight : Z;
  html_offsetHeight : Z;
  probe_widthNoScroll : Z;     (* outer.offsetWidth of the probe element *)
  probe_widthWithScroll : Z    (* inner.offsetWidth once overflow is "scroll" *)
}.

(** [type ScrollTarget]. *)
Record ScrollTarget : Type := mkTarget {
  x : Z;
  y : Z;
  latestTimeToTry : Z
}.

(** The two closures the plugin hands to [setTimeout]. *)
Inductive callback : Type :=
  | CbBegin (sx sy : Z)       (* the closure created by [onPageFinish] *)
  | CbPoll (t : ScrollTarget) (* [() => tryToScrollTo(scrollTarget)] *).

Record timer : Type := mkTimer {
  handle : nat;
  due : Z;
  cb : callback
}.

(** Calls that leave the plugin. *)
Inductive call : Type :=
  | ScrollTo (cx cy : Z)
  | OriginalReplaceState (state : value) (otherArgs : list value)
  | OriginalPushState (args : list value).

Inductive exn : Type :=
  | TypeError (reading : string)   (* property read on null or undefined *)
  | NativeError (name : string)    (* thrown by a native history primitive *).

Record World : Type := mkWorld {
  now : Z;                               (* Date.now() *)
  dom : Dom;
  history_state : value;                 (* window.history.state *)
  history_back : list value;             (* states of the entries behind it *)
  native_fault : call -> option string;  (* when a native primitive throws *)
  timers : list timer;                   (* pending timeouts, oldest first *)
  next_handle : nat;
  calls : list (Z * call);               (* log of outgoing calls, with time *)
  isMounted : bool;
  poppedState : value;
  timeoutHandle : option nat;
  scrollBarWidth : Z
}.

Definition set_browser_time (t : Z) (d : Dom) (w : World) : World :=
  mkWorld t d (history_state w) (history_back w) (native_fault w) (timers w)
    (next_handle w) (calls w) (isMounted w) (poppedState w) (timeoutHandle w)
    (scrollBarWidth w).

Definition set_history (st : value) (back : list value) (w : World) : World :=
  mkWorld (now w) (dom w) st back (native_fault w) (timers w)
    (next_handle w) (calls w) (isMounted w) (poppedState w) (timeoutHandle w)
    (scrollBarWidth w).

Definition set_timers (ts : list timer) (n : nat) (w : World) : World :=
  mkWorld (now w) (dom w) (history_state w) (history_back w) (native_fault w) ts
    n (calls w) (isMounted w) (poppedState w) (timeoutHandle w)
    (scrollBarWidth w).

Definition log_call (c : call) (w : World) : World :=
  mkWorld (now w) (dom w) (history_state w) (history_back w) (native_fault w)
    (timers w) (next_handle w) (calls w ++ [(now w, c)]) (isMounted w)
    (poppedState w) (timeoutHandle w) (scrollBarWidth w).

Definition set_isMounted (b : bool) (w : World) : World :=
  mkWorld (now w) (dom w) (history_state w) (history_back w) (native_fault w)
    (timers w) (next_handle w) (calls w) b (poppedState w) (timeoutHandle w)
    (scrollBarWidth w).

Definition set_poppedState (v : value) (w : World) : World :=
  mkWorld (now w) (dom w) (history_state w) (history_back w) (native_fault w)
    (timers w) (next_handle w) (calls w) (isMounted w) v (timeoutHandle w)
    (scrollBarWidth w).

Definition set_timeoutHandle (h : option nat) (w : World) : World :=
  mkWorld (now w) (dom w) (history_state w) (history_back w) (native_fault w)
    (timers w) (next_handle w) (calls w) (isMounted w) (poppedState w) h
    (scrollBarWidth w).

Definition set_scrollBarWidth (n : Z) (w : World) : World :=
  mkWorld (now w) (dom w) (history_state w) (history_back w) (native_fault w)
    (timers w) (next_handle w) (calls w) (isMounted w) (poppedState w)
    (timeoutHandle w) n.

(** The plugin's variables right after the plugin body has run. *)
Definition init (t : Z) (d : Dom) (st : value) (back : list value)
    (fault : call -> option string) : World :=
  mkWorld t d st back fault [] 1%nat [] false VNull None 0.

(** ** Browser primitives *)

(** The [timeout] argument of [setTimeout] is a WebIDL [long]: it wraps
    around modulo 2^32 into the signed 32-bit range, and a negative timeout
    counts as 0. *)
Definition to_long (z : Z) : Z := (z + 2147483648) mod 4294967296 - 2147483648.

Definition timer_delay (ms : Z) : Z := Z.max 0 (to_long ms).

(** [setTimeout(cb, ms)]: a fresh handle, and a new pending timer. *)
Definition setTimeout (c : callback) (ms : Z) (w : World) : nat * World :=
  let h := next_handle w in
  (h, set_timers (timers w ++ [mkTimer h (now w + timer_delay ms) c]) (S h) w).

(** [clearTimeout(h)]: [undefined] and handles that are no longer pending
    are ignored. *)
Definition clearTimeout (h : option nat) (w : World) : World :=
  match h with
  | None => w
  | Some n =>
      set_timers (filter (fun tm => handle tm ≠ n) (timers w)) (next_handle w) w
  end.

(** [window.scrollTo(x, y)]. The browser clamps and applies the command on
    its own; the new offsets reach the plugin as later [Dom] readings. *)
Definition scrollTo (sx sy : Z) (w : World) : World := log_call (ScrollTo sx sy) w.

(** Computations that may throw. *)
Inductive Outcome (A : Type) : Type :=
  | Returned (a : A) (w : World)
  | Thrown (e : exn) (w : World).
Arguments Returned {A} a w.
Arguments Thrown {A} e w.

Definition M (A : Type) : Type := World -> Outcome A.

Definition ret {A} (a : A) : M A := fun w => Returned a w.

Definition throw {A} (e : exn) : M A := fun w => Thrown e w.

Definition bind {A B} (m : M A) (k : A -> M B) : M B :=
  fun w =>
    match m w with
    | Returned a w1 => k a w1
    | Thrown e w1 => Thrown e w1
    end.

Notation "'let!' x ':=' m 'in' k" := (bind m (fun x => k))
  (at level 10, x name, m at level 100, k at level 200).

Definition world_of {A} (o : Outcome A) : World :=
  match o with
  | Returned _ w => w
  | Thrown _ w => w
  end.

(** The native [history.replaceState], as [originalReplaceState.apply]
    reaches it: the call is made, and unless the browser rejects it the
    current entry's state becomes the (cloned) first argument. *)
Definition originalReplaceState (newState : value) (otherArgs : list value) : M unit :=
  fun w =>
    let c := OriginalReplaceState newState otherArgs in
    let w1 := log_call c w in
    match native_fault w c with
    | Some name => Thrown (NativeError name) w1
    | None => Returned tt (set_history newState (history_back w1) w1)
    end.

(** The native [history.pushState]: a new current entry whose state is the
    first argument; the entry left behind keeps the state it had. *)
Definition originalPushState (args : list value) : M unit :=
  fun w =>
    let c := OriginalPushState args in
    let w1 := log_call c w in
    match native_fault w c with
    | Some name => Thrown (NativeError name) w1
    | None =>
        Returned tt
          (set_history (default VUndefined (head args))
             (history_state w1 :: history_back w1) w1)
    end.

(** The property read [v.k] inside a computation. *)
Definition read_prop (v : value) (k : string) : M value :=
  match get_prop v k with
  | Some r => ret r
  | None => throw (TypeError k)
  end.

(** ** The plugin *)

(** [getScrollbarWidth()]: the probe elements are added and removed again;
    what is left is the difference of the two measured widths. *)
Definition getScrollbarWidth (d : Dom) : Z :=
  probe_widthNoScroll d - probe_widthWithScroll d.

(** [Math.max(body.scrollWidth, body.offsetWidth, html.clientWidth,
    html.scrollWidth, html.offsetWidth)]. *)
Definition documentWidth (d : Dom) : Z :=
  Z.max (body_scrollWidth d) (Z.max (body_offsetWidth d)
    (Z.max (html_clientWidth d) (Z.max (html_scrollWidth d) (html_offsetWidth d)))).

Definition documentHeight (d : Dom) : Z :=
  Z.max (body_scrollHeight d) (Z.max (body_offsetHeight d)
    (Z.max (html_clientHeight d) (Z.max (html_scrollHeight d) (html_offsetHeight d)))).

(** The hook on ["app:mounted"]. *)
Definition onMounted (w : World) : World := set_isMounted true w.

(** The replacement for [window.history.replaceState]. *)
Definition replaceState (state : value) (otherArgs : list value) : M unit :=
  fun w =>
    if isMounted w then
      let newState :=
        assign_scroll state (VNum (Fin (scrollX (dom w)))) (VNum (Fin (scrollY (dom w)))) in
      originalReplaceState newState otherArgs w
    else
      (let! sx := read_prop (history_state w) "__scrollX" in
       let! sy := read_prop (history_state w) "__scrollY" in
       originalReplaceState (assign_scroll state sx sy) otherArgs) w.

(** The replacement for [window.history.pushState]. *)
Definition pushState (args : list value) : M unit :=
  fun w =>
    (let! done := replaceState (history_state w) [VStr ""] in
     originalPushState args) w.

(** [state && Number.isFinite(state.__scrollX) &&
    Number.isFinite(state.__scrollY)], together with the two coordinates the
    guarded code reads. The reads happen only on a truthy [state], where
    they cannot throw. *)
Definition finite_scroll (state : value) : option (Z * Z) :=
  if truthy state then
    match get_prop state "__scrollX", get_prop state "__scrollY" with
    | Some (VNum (Fin sx)), Some (VNum (Fin sy)) => Some (sx, sy)
    | _, _ => None
    end
  else None.

(** The listener on ["popstate"]. *)
Definition onPopState (event_state : value) (w : World) : World :=
  match finite_scroll event_state with
  | Some _ => set_poppedState event_state w
  | None => w
  end.

(** The listener on ["beforeunload"]. *)
Definition onBeforeUnload : M unit :=
  fun w => replaceState (history_state w) [VStr ""] w.

(** A timer that runs is no longer pending. *)
Definition dequeue (tm : timer) (w : World) : World :=
  set_timers (filter (fun t' => handle t' ≠ handle tm) (timers w)) (next_handle w) w.

Section Plugin.

(** [useRuntimeConfig().public.scrollRestoration]. *)
Variable rc : option Config.ScrollRestorationOptions.

(** [tryToScrollTo]. *)
Definition tryToScrollTo (scrollTarget : ScrollTarget) (w : World) : World :=
  let w1 := clearTimeout (timeoutHandle w) w in
  let w2 :=
    if Z.eqb (scrollBarWidth w1) 0
    then set_scrollBarWidth (getScrollbarWidth (dom w1)) w1
    else w1 in
  if (Z.geb (documentWidth (dom w2) + scrollBarWidth w2 - innerWidth (dom w2))
            (x scrollTarget)
      && Z.geb (documentHeight (dom w2) + scrollBarWidth w2 - innerHeight (dom w2))
               (y scrollTarget))
     || Z.gtb (now w2) (latestTimeToTry scrollTarget)
  then scrollTo (x scrollTarget) (y scrollTarget) w2
  else
    let '(h, w3) :=
      setTimeout (CbPoll scrollTarget) (Config.TRY_TO_SCROLL_INTERVAL_MS rc) w2 in
    set_timeoutHandle (Some h) w3.

(** Running a timer's closure. The closure of [onPageFinish] builds its
    target, and so reads the clock, when it runs. *)
Definition run_callback (c : callback) (w : World) : World :=
  match c with
  | CbBegin sx sy =>
      tryToScrollTo
        (mkTarget sx sy (now w + Config.SCROLL_RESTORATION_TIMEOUT_MS rc)) w
  | CbPoll t => tryToScrollTo t w
  end.

(** [onPageFinish], the hook on ["page:finish"] and
    ["app:suspense:resolve"]. *)
Definition onPageFinish (w : World) : World :=
  let state := or_else (poppedState w) (history_state w) in
  let w1 := set_poppedState VNull w in
  match finite_scroll state with
  | Some (sx, sy) => snd (setTimeout (CbBegin sx sy) 0 w1)
  | None => scrollTo 0 0 w1
  end.

(** The event loop takes a pending timer off the list and runs it. *)
Definition fire (tm : timer) (w : World) : World :=
  run_callback (cb tm) (dequeue tm w).

End Plugin.

(** ** The event loop *)

(** The pending timer that is due first (the oldest one among equals). *)
Fixpoint earliest (ts : list timer) : option timer :=
  match ts with
  | [] => None
  | tm :: r =>
      match earliest r with
      | Some tm' => if Z.ltb (due tm') (due tm) then Some tm' else Some tm
      | None => Some tm
      end
  end.

(** Things that happen to the plugin. *)
Inductive input : Type :=
  | AppMounted
  | PageFinish
  | Traverse (st : value) (back : list value)  (* back/forward, then popstate *)
  | BeforeUnload
  | CallReplaceState (state : value) (otherArgs : list value)
  | CallPushState (args : list value)
  | TimerFires (h : nat)
  | Environment (t : Z) (d : Dom)              (* time passes, layout changes *).

Section EventLoop.

Variable rc : option Config.ScrollRestorationOptions.

(** With nothing else going on, the event loop waits for the timer that is
    due first and runs it; [layout] gives the DOM readings at each time. *)
Definition tick (layout : Z -> Dom) (w : World) : option World :=
  match earliest (timers w) with
  | None => None
  | Some tm =>
      let t := Z.max (now w) (due tm) in
      Some (fire rc tm (set_browser_time t (layout t) w))
  end.

Fixpoint run (layout : Z -> Dom) (fuel : nat) (w : World) : World :=
  match fuel with
  | O => w
  | S f =>
      match tick layout w with
      | Some w' => run layout f w'
      | None => w
      end
  end.

(** The pending timer with handle [h], if it is due. *)
Definition due_timer (h : nat) (w : World) : option timer :=
  match List.find (fun tm => Nat.eqb (handle tm) h) (timers w) with
  | Some tm => if Z.leb (due tm) (now w) then Some tm else None
  | None => None
  end.

(** One reaction of the plugin. An exception thrown by a handler reaches
    the caller; the world stays as the handler left it. *)
Definition step (i : input) (w : World) : World :=
  match i with
  | AppMounted => onMounted w
  | PageFinish => onPageFinish w
  | Traverse st back => onPopState st (set_history st back w)
  | BeforeUnload => world_of (onBeforeUnload w)
  | CallReplaceState state otherArgs => world_of (replaceState state otherArgs w)
  | CallPushState args => world_of (pushState args w)
  | TimerFires h =>
      match due_timer h w with
      | Some tm => fire rc tm w
      | None => w
      end
  | Environment t d => if Z.leb (now w) t then set_browser_time t d w else w
  end.

Definition exec (ins : list input) (w : World) : World :=
  foldl (fun w i => step i w) w ins.

(** An input starts a restoration attempt when it fires the closure that
    [onPageFinish] deferred. *)
Definition starts_attempt (i : input) (w : World) : bool :=
  match i with
  | TimerFires h =>
      match due_timer h w with
      | Some tm => match cb tm with CbBegin _ _ => true | CbPoll _ => false end
      | None => false
      end
  | _ => false
  end.

(** Running inputs as long as none of them starts a new attempt. *)
Fixpoint exec_same_attempt (ins : list input) (w : World) : option World :=
  match ins with
  | [] => Some w
  | i :: r =>
      if starts_attempt i w then None else exec_same_attempt r (step i w)
  end.

End EventLoop.

(** The delay of the timer that [tryToScrollTo] sets. *)
Definition poll_delay (rc : option Config.ScrollRestorationOptions) : Z :=
  timer_delay (Config.TRY_TO_SCROLL_INTERVAL_MS rc).

(** A bound on the event-loop steps that the pending timers can still
    cause: a poll stands for itself and the polls that can follow it before
    its deadline, a deferred start for itself and a full attempt. *)
Definition attempt_steps (rc : option Config.ScrollRestorationOptions) : nat :=
  S (Z.to_nat (Config.SCROLL_RESTORATION_TIMEOUT_MS rc
               / timer_delay (Config.TRY_TO_SCROLL_INTERVAL_MS rc))).

Definition weight (rc : option Config.ScrollRestorationOptions) (tm : timer) : nat :=
  match cb tm with
  | CbBegin _ _ => S (attempt_steps rc)
  | CbPoll t =>
      S (Z.to_nat ((latestTimeToTry t - due tm)
                   / timer_delay (Config.TRY_TO_SCROLL_INTERVAL_MS rc) + 1))
  end.

Definition pending_weight (rc : option Config.ScrollRestorationOptions)
    (ts : list timer) : nat :=
  foldr (fun tm n => (weight rc tm + n)%nat) 0%nat ts.

(** The test of [tryToScrollTo] as a proposition: the document is large
    enough in both axes, or the deadline has passed. [sbw] is the scrollbar
    width in use. *)
Definition reachable (d : Dom) (sbw : Z) (t : ScrollTarget) : Prop :=
  documentWidth d + sbw - innerWidth d >= x t /\
  documentHeight d + sbw - innerHeight d >= y t.

Definition may_scroll (d : Dom) (sbw time : Z) (t : ScrollTarget) : Prop :=
  reachable d sbw t \/ time > latestTimeToTry t.

(** The scrollbar width [tryToScrollTo] works with: the cached one, measured
    first when the cache holds 0. *)
Definition scrollbar_in_use (w : World) : Z :=
  if Z.eqb (scrollBarWidth w) 0 then getScrollbarWidth (dom w) else scrollBarWidth w.

(** Pending timers never share a handle, handles are handed out in order,
    and a pending poll is always the one [timeoutHandle] names. *)
Definition timers_ok (w : World) : Prop :=
  NoDup (handle <$> timers w) /\
  (forall tm, tm ∈ timers w -> (handle tm < next_handle w)%nat) /\
  (forall tm t, tm ∈ timers w -> cb tm = CbPoll t -> timeoutHandle w = Some (handle tm)).

(** The handle [h] was handed out and is not pending: it can never fire. *)
Definition gone (h : nat) (w : World) : Prop :=
  (h ∉ handle <$> timers w) /\ (h < next_handle w)%nat.

(** Every pending poll belongs to the attempt with target [t]. *)
Definition attempt_is (t : ScrollTarget) (w : World) : Prop :=
  forall tm t', tm ∈ timers w -> cb tm = CbPoll t' -> t' = t.

(** ** Vocabulary for statements about runs *)

(** The input that is the ["app:mounted"] hook. *)
Definition is_app_mounted (i : input) : bool :=
  match i with
  | AppMounted => true
  | _ => false
  end.

(** A run of back/forward navigations, each given by the state of the entry
    it lands on and the entries behind it. *)
Definition traversals (sts : list (value * list value)) : list input :=
  map (fun p => Traverse (fst p) (snd p)) sts.

(** The last state of a run of navigations that holds a finite position;
    [d] when there is none. *)
Definition last_staged (sts : list (value * list value)) (d : value) : value :=
  foldl (fun staged p =>
           match finite_scroll (fst p) with
           | Some _ => fst p
           | None => staged
           end) d sts.

(** A state object that has both position fields as own properties. *)
Definition stamped_state (v : value) : Prop :=
  exists m, v = VObj m /\ is_Some (m !! "__scrollX") /\ is_Some (m !! "__scrollY").

(** A call to the native [replaceState] that hands over a stamped state. *)
Definition well_stamped (c : call) : Prop :=
  match c with
  | OriginalReplaceState st _ => stamped_state st
  | _ => True
  end.

(** A pending closure that works towards the position [(a, b)]. *)
Definition aims_at (a b : Z) (c : callback) : Prop :=
  match c with
  | CbBegin sx sy => sx = a /\ sy = b
  | CbPoll t => x t = a /\ y t = b
  end.

(** [timeoutHandle] names a handle that was handed out, and never the
    handle of a deferred start that is still pending. *)
Definition starts_safe (w : World) : Prop :=
  (forall h, timeoutHandle w = Some h -> (h < next_handle w)%nat) /\
  (forall tm sx sy, tm ∈ timers w -> cb tm = CbBegin sx sy ->
     (handle tm < next_handle w)%nat /\ timeoutHandle w ≠ Some (handle tm)).

(** ** Sample pages and histories *)

Module Sample.

(** A page whose body and root element measure [w] by [h], seen through a
    viewport of [vw] by [vh], with scrollbars 15 pixels thick. *)
Definition page (w h vw vh : Z) : Dom :=
  {| scrollX := 0; scrollY := 0; innerWidth := vw; innerHeight := vh;
     body_scrollWidth := w; body_offsetWidth := w; html_clientWidth := vw - 15;
     html_scrollWidth := w; html_offsetWidth := w;
     body_scrollHeight := h; body_offsetHeight := h; html_clientHeight := vh - 15;
     html_scrollHeight := h; html_offsetHeight := h;
     probe_widthNoScroll := 100; probe_widthWithScroll := 85 |}.

(** The same page scrolled to [(sx, sy)]. *)
Definition scrolled (sx sy : Z) (d : Dom) : Dom :=
  mkDom sx sy (innerWidth d) (innerHeight d) (body_scrollWidth d)
    (body_offsetWidth d) (html_clientWidth d) (html_scrollWidth d)
    (html_offsetWidth d) (body_scrollHeight d) (body_offsetHeight d)
    (html_clientHeight d) (html_scrollHeight d) (html_offsetHeight d)
    (probe_widthNoScroll d) (probe_widthWithScroll d).

(** The reachable height of a page, as [tryToScrollTo] computes it with a
    scrollbar of 15 pixels. *)
Definition reachable_height (d : Dom) : Z := documentHeight d + 15 - innerHeight d.

(** Content that keeps loading: the reachable height is 500 at time 0, grows
    by 100 every 50 ms, and stays at 1200 once it gets there. *)
Definition growing (t : Z) : Dom := page 1000 (Z.min 1785 (1085 + 2 * t)) 1000 600.

(** A page that stays short: the reachable height is 800 at all times. *)
Definition short (t : Z) : Dom := page 1000 1385 1000 600.

Definition no_fault (c : call) : option string := None.

(** A state object carrying a stored position. *)
Definition stored (sx sy : Z) : value :=
  VObj (<["__scrollY" := VNum (Fin sy)]> (<["__scrollX" := VNum (Fin sx)]> ∅)).

(** The state the router keeps in an entry, without a position. *)
Definition router_state : value :=
  VObj (<["current" := VStr "/list"]> (<["position" := VNum (Fin 3)]> ∅)).

(** The plugin just installed on [d], the current entry holding [st]. *)
Definition fresh (d : Dom) (st : value) : World := init 0 d st [] no_fault.

(** The options of the timeout scenario. *)
Definition quick : option Config.ScrollRestorationOptions :=
  Some (Config.mkOptions (Some 300) (Some 50) None).

(** Navigation has just finished on the growing page, the entry holding
    the position (0, 1000). *)
Definition growing_start : World := onPageFinish (fresh (growing 0) (stored 0 1000)).

(** Navigation has just finished on the short page, the entry holding the
    position (0, 5000). *)
Definition short_start : World := onPageFinish (fresh (short 0) (stored 0 5000)).

(** Two navigations on the short page with the options [quick]: the attempt
    for (0, 5000) has started and waits for its next poll when a back
    navigation brings the position (0, 2000) and the page finishes again. *)
Definition second_pending : World :=
  exec quick
    [PageFinish; TimerFires 1; Traverse (stored 0 2000) []; PageFinish]
    (init 0 (short 0) (stored 0 5000) [] no_fault).

(** A back navigation to an entry holding (10, 20), then an overwrite of
    the current entry on a mounted page that stands at (99, 99). *)
Definition popped_then_stamped : list input :=
  [AppMounted; Environment 0 (scrolled 99 99 (growing 0));
   Traverse (stored 10 20) []; CallReplaceState (VObj ∅) [VStr ""]].

End Sample.

(** ** Values and property reads *)

Lemma get_prop_None (v : value) (k : string) :
  get_prop v k = None <-> v = VUndefined \/ v = VNull.
Proof.
  split.
  - destruct v; simpl; try (intros; discriminate); auto.
    destruct (String.eqb k "length"); discriminate.
  - intros [-> | ->]; reflexivity.
Qed.

Lemma get_prop_truthy (v : value) (k : string) :
  truthy v = true -> is_Some (get_prop v k).
Proof.
  intros Ht. destruct (get_prop v k) eqn:E; [eauto |].
  apply get_prop_None in E as [-> | ->]; discriminate.
Qed.

Lemma finite_scroll_Some (state : value) (sx sy : Z) :
  finite_scroll state = Some (sx, sy) <->
  truthy state = true /\
  get_prop state "__scrollX" = Some (VNum (Fin sx)) /\
  get_prop state "__scrollY" = Some (VNum (Fin sy)).
Proof.
  unfold finite_scroll. split.
  - destruct (truthy state); [| discriminate].
    destruct (get_prop state "__scrollX") as [[| | |[]| |]|]; try discriminate;
    destruct (get_prop state "__scrollY") as [[| | |[]| |]|]; try discriminate.
    intros [= -> ->]. auto.
  - intros (-> & -> & ->). reflexivity.
Qed.

(** [finite_scroll] is [None] exactly when the source's guard is false. *)
Lemma finite_scroll_None (state : value) :
  finite_scroll state = None <->
  truthy state = false \/
  (forall v, get_prop state "__scrollX" = Some v -> isFinite v = false) \/
  (forall v, get_prop state "__scrollY" = Some v -> isFinite v = false).
Proof.
  unfold finite_scroll. split.
  - destruct (truthy state); [| auto]. right.
    destruct (get_prop state "__scrollX") as [vx|]; [| left; intros; discriminate].
    destruct (isFinite vx) eqn:Ex; [| left; intros ? [= <-]; exact Ex].
    destruct (get_prop state "__scrollY") as [vy|]; [| right; intros; discriminate].
    destruct (isFinite vy) eqn:Ey; [| right; intros ? [= <-]; exact Ey].
    destruct vx as [| | |[]| |]; try discriminate.
    destruct vy as [| | |[]| |]; discriminate.
  - intros [-> | [H | H]]; [reflexivity | |]; destruct (truthy state); try reflexivity.
    + destruct (get_prop state "__scrollX") as [vx|]; [| reflexivity].
      specialize (H vx eq_refl). destruct vx as [| | |[]| |]; try discriminate; reflexivity.
    + destruct (get_prop state "__scrollY") as [vy|].
      * specialize (H vy eq_refl).
        destruct (get_prop state "__scrollX") as [[| | |[]| |]|]; try reflexivity;
        destruct vy as [| | |[]| |]; try discriminate; reflexivity.
      * destruct (get_prop state "__scrollX") as [[| | |[]| |]|]; reflexivity.
Qed.

Lemma assign_scroll_other (state sx sy : value) (k : string) :
  k ≠ "__scrollX" -> k ≠ "__scrollY" ->
  own_props (assign_scroll state sx sy) !! k = own_props state !! k.
Proof.
  intros Hx Hy. unfold assign_scroll. simpl.
  rewrite lookup_insert_ne by congruence.
  rewrite lookup_insert_ne by congruence. reflexivity.
Qed.

Lemma assign_scroll_X (state sx sy : value) :
  get_prop (assign_scroll state sx sy) "__scrollX" = Some sx.
Proof.
  unfold assign_scroll, get_prop. simpl.
  rewrite lookup_insert_ne by discriminate.
  rewrite lookup_insert_eq. reflexivity.
Qed.

Lemma assign_scroll_Y (state sx sy : value) :
  get_prop (assign_scroll state sx sy) "__scrollY" = Some sy.
Proof.
  unfold assign_scroll, get_prop. simpl.
  rewrite lookup_insert_eq. reflexivity.
Qed.

(** ** The history wrappers *)

(** What the wrapped [replaceState] hands to the native one:
    the live offsets once mounted, the stored ones before. *)
Lemma replaceState_mounted (state : value) (otherArgs : list value) (w : World) :
  isMounted w = true ->
  replaceState state otherArgs w =
  originalReplaceState
    (assign_scroll state (VNum (Fin (scrollX (dom w)))) (VNum (Fin (scrollY (dom w)))))
    otherArgs w.
Proof. intros H. unfold replaceState. rewrite H. reflexivity. Qed.

Lemma replaceState_unmounted (state : value) (otherArgs : list value) (w : World)
    (sx sy : value) :
  isMounted w = false ->
  get_prop (history_state w) "__scrollX" = Some sx ->
  get_prop (history_state w) "__scrollY" = Some sy ->
  replaceState state otherArgs w =
  originalReplaceState (assign_scroll state sx sy) otherArgs w.
Proof.
  intros H Hx Hy. unfold replaceState, bind, read_prop. rewrite H, Hx, Hy.
  reflexivity.
Qed.

Lemma replaceState_unmounted_nullish (state : value) (otherArgs : list value)
    (w : World) :
  isMounted w = false ->
  get_prop (history_state w) "__scrollX" = None ->
  replaceState state otherArgs w = Thrown (TypeError "__scrollX") w.
Proof.
  intros H Hx. unfold replaceState, bind, read_prop. rewrite H, Hx. reflexivity.
Qed.

Lemma originalReplaceState_calls (newState : value) (otherArgs : list value) (w : World) :
  calls (world_of (originalReplaceState newState otherArgs w)) =
  calls w ++ [(now w, OriginalReplaceState newState otherArgs)].
Proof.
  unfold originalReplaceState. destruct (native_fault w _); reflexivity.
Qed.

(** Every run of the wrapped [replaceState] either hands one merged state
    to the native primitive, or (before mounting, on an entry without a
    state object) stops at the property read. *)
Lemma replaceState_cases (state : value) (otherArgs : list value) (w : World) :
  (exists sx sy,
     replaceState state otherArgs w =
       originalReplaceState (assign_scroll state sx sy) otherArgs w /\
     (if isMounted w
      then sx = VNum (Fin (scrollX (dom w))) /\ sy = VNum (Fin (scrollY (dom w)))
      else get_prop (history_state w) "__scrollX" = Some sx /\
           get_prop (history_state w) "__scrollY" = Some sy)) \/
  (isMounted w = false /\
   get_prop (history_state w) "__scrollX" = None /\
   replaceState state otherArgs w = Thrown (TypeError "__scrollX") w).
Proof.
  destruct (isMounted w) eqn:Hm.
  - left. eexists _, _. split; [apply replaceState_mounted; exact Hm | auto].
  - destruct (get_prop (history_state w) "__scrollX") as [sx|] eqn:Hx.
    + assert (is_Some (get_prop (history_state w) "__scrollY")) as [sy Hy].
      { destruct (get_prop (history_state w) "__scrollY") eqn:E; [eauto |].
        apply get_prop_None in E. apply get_prop_None with (k := "__scrollX") in E.
        congruence. }
      left. exists sx, sy. split; [| auto].
      apply replaceState_unmounted; assumption.
    + right. split; [reflexivity |]. split; [reflexivity |].
      apply replaceState_unmounted_nullish; assumption.
Qed.

(** C3. Whatever state [S] the wrapped [replaceState] is called with, and
    whether or not the application is mounted, the state it passes to the
    native [replaceState] has exactly the fields of [S] apart from
    [__scrollX] and [__scrollY]; the other arguments are passed on as they
    are. The one run that passes nothing is the unmounted one on an entry
    without a state object, which stops at the property read. *)
Theorem replaceState_keeps_other_fields
    (S : value) (otherArgs : list value) (w : World) :
  (exists newState,
     calls (world_of (replaceState S otherArgs w)) =
       calls w ++ [(now w, OriginalReplaceState newState otherArgs)] /\
     forall k, k ≠ "__scrollX" -> k ≠ "__scrollY" ->
       own_props newState !! k = own_props S !! k) \/
  (isMounted w = false /\
   get_prop (history_state w) "__scrollX" = None /\
   calls (world_of (replaceState S otherArgs w)) = calls w).
Proof.
  destruct (replaceState_cases S otherArgs w) as [(sx & sy & -> & _) | (Hm & Hx & ->)].
  - left. exists (assign_scroll S sx sy). split.
    + apply originalReplaceState_calls.
    + intros k Hkx Hky. apply assign_scroll_other; assumption.
  - right. auto.
Qed.

(** On a mounted page the router's fields survive the stamping. *)
Lemma replaceState_keeps_other_fields_witness :
  exists newState,
    calls (world_of (replaceState Sample.router_state [VStr ""]
                       (onMounted (Sample.fresh (Sample.growing 0) VNull)))) =
      [(0, OriginalReplaceState newState [VStr ""])] /\
    own_props newState !! "current" = Some (VStr "/list").
Proof.
  destruct (replaceState_keeps_other_fields Sample.router_state [VStr ""]
              (onMounted (Sample.fresh (Sample.growing 0) VNull)))
    as [(newState & Hc & Hk) | (Hm & _)].
  - exists newState. split; [exact Hc |].
    rewrite Hk by discriminate. reflexivity.
  - discriminate Hm.
Defined.

(** C4. Before the application is mounted, the wrapped [replaceState]
    stamps the new state with the [__scrollX] and [__scrollY] that the
    current history entry already holds, whatever the live offsets are. *)
Theorem replaceState_unmounted_keeps_stored_position
    (state : value) (otherArgs : list value) (w : World) (sx sy : value) :
  isMounted w = false ->
  get_prop (history_state w) "__scrollX" = Some sx ->
  get_prop (history_state w) "__scrollY" = Some sy ->
  exists newState,
    calls (world_of (replaceState state otherArgs w)) =
      calls w ++ [(now w, OriginalReplaceState newState otherArgs)] /\
    get_prop newState "__scrollX" = Some sx /\
    get_prop newState "__scrollY" = Some sy.
Proof.
  intros Hm Hx Hy. exists (assign_scroll state sx sy).
  rewrite (replaceState_unmounted state otherArgs w sx sy Hm Hx Hy).
  split; [apply originalReplaceState_calls |].
  split; [apply assign_scroll_X | apply assign_scroll_Y].
Qed.

(** The stored entry holds (120, 340), the viewport is at (0, 0), the new
    state is empty: the delegated state carries (120, 340). *)
Lemma replaceState_unmounted_keeps_stored_position_witness :
  scrollX (dom (Sample.fresh (Sample.growing 0) (Sample.stored 120 340))) = 0 /\
  scrollY (dom (Sample.fresh (Sample.growing 0) (Sample.stored 120 340))) = 0 /\
  exists newState,
    calls (world_of (replaceState (VObj ∅) [VStr ""]
                       (Sample.fresh (Sample.growing 0) (Sample.stored 120 340)))) =
      [(0, OriginalReplaceState newState [VStr ""])] /\
    get_prop newState "__scrollX" = Some (VNum (Fin 120)) /\
    get_prop newState "__scrollY" = Some (VNum (Fin 340)).
Proof.
  split; [reflexivity |]. split; [reflexivity |].
  apply (replaceState_unmounted_keeps_stored_position (VObj ∅) [VStr ""]
           (Sample.fresh (Sample.growing 0) (Sample.stored 120 340))
           (VNum (Fin 120)) (VNum (Fin 340)));
    reflexivity.
Defined.

(** C8 fails on the code: before the application is mounted and while the
    current entry has no state object ([history.state] is [null]), the
    wrapped [replaceState] and [pushState] throw a TypeError of their own,
    although the native primitives would not throw and are never reached. *)
Theorem wrappers_throw_on_null_entry_before_mount :
  let w := Sample.fresh (Sample.growing 0) VNull in
  isMounted w = false /\
  history_state w = VNull /\
  (forall c, native_fault w c = None) /\
  replaceState (VObj ∅) [VStr ""] w = Thrown (TypeError "__scrollX") w /\
  pushState [VObj ∅; VStr ""; VStr "/next"] w = Thrown (TypeError "__scrollX") w /\
  calls w = [].
Proof.
  simpl. repeat split; reflexivity.
Qed.

(** Where the wrapper does not stop at its own property read, it throws only
    what the native primitive throws. *)
Lemma replaceState_throws_only_natively
    (state : value) (otherArgs : list value) (w w' : World) (e : exn) :
  isMounted w = true \/ is_Some (get_prop (history_state w) "__scrollX") ->
  replaceState state otherArgs w = Thrown e w' ->
  exists newState name,
    native_fault w (OriginalReplaceState newState otherArgs) = Some name /\
    e = NativeError name.
Proof.
  intros Hok.
  destruct (replaceState_cases state otherArgs w) as [(sx & sy & -> & _) | (Hm & Hx & _)].
  - unfold originalReplaceState.
    destruct (native_fault w _) as [name|] eqn:Hf; [| discriminate].
    intros [= <- _]. eauto.
  - destruct Hok as [Hm' | [v Hv]]; congruence.
Qed.

(** C9. The wrapped [pushState] first runs the wrapped [replaceState] on the
    state of the current entry, so that the entry being left is stamped, and
    only then calls the native [pushState], with the arguments it was given;
    the new entry's state is the caller's first argument, without a stamp.
    An exception from the stamping ends the call before the native
    [pushState] is reached. *)
Theorem pushState_stamps_then_delegates (args : list value) (w : World) :
  (isMounted w = false /\
   get_prop (history_state w) "__scrollX" = None /\
   pushState args w = Thrown (TypeError "__scrollX") w) \/
  exists stamped,
    (forall k, k ≠ "__scrollX" -> k ≠ "__scrollY" ->
       own_props stamped !! k = own_props (history_state w) !! k) /\
    (isMounted w = true ->
       get_prop stamped "__scrollX" = Some (VNum (Fin (scrollX (dom w)))) /\
       get_prop stamped "__scrollY" = Some (VNum (Fin (scrollY (dom w))))) /\
    let c1 := (now w, OriginalReplaceState stamped [VStr ""]) in
    let c2 := (now w, OriginalPushState args) in
    match native_fault w (OriginalReplaceState stamped [VStr ""]),
          native_fault w (OriginalPushState args) with
    | Some name, _ =>
        exists w1, pushState args w = Thrown (NativeError name) w1 /\
                   calls w1 = calls w ++ [c1]
    | None, Some name =>
        exists w2, pushState args w = Thrown (NativeError name) w2 /\
                   calls w2 = calls w ++ [c1; c2] /\
                   history_state w2 = stamped /\
                   history_back w2 = history_back w
    | None, None =>
        exists w3, pushState args w = Returned tt w3 /\
                   calls w3 = calls w ++ [c1; c2] /\
                   history_back w3 = stamped :: history_back w /\
                   history_state w3 = default VUndefined (head args)
    end.
Proof.
  unfold pushState, bind.
  destruct (replaceState_cases (history_state w) [VStr ""] w)
    as [(sx & sy & -> & Hs) | (Hm & Hx & ->)]; [right | left; auto].
  exists (assign_scroll (history_state w) sx sy).
  split; [intros k Hkx Hky; apply assign_scroll_other; assumption |].
  split.
  { intros Hm. rewrite Hm in Hs. destruct Hs as [-> ->].
    split; [apply assign_scroll_X | apply assign_scroll_Y]. }
  unfold originalReplaceState, originalPushState. simpl.
  destruct (native_fault w (OriginalReplaceState _ _)) as [n1|]; simpl.
  - eexists. split; reflexivity.
  - destruct (native_fault w (OriginalPushState args)) as [n2|]; simpl.
    + eexists. split; [reflexivity |]. simpl. rewrite <- app_assoc. auto.
    + eexists. split; [reflexivity |]. simpl. rewrite <- app_assoc. auto.
Qed.

(** A mounted page scrolled to (0, 700): the entry left behind carries
    (0, 700) next to the router's fields, the new entry carries no stamp. *)
Lemma pushState_stamps_then_delegates_witness :
  let w := onMounted (Sample.fresh (Sample.scrolled 0 700 (Sample.growing 400))
                        Sample.router_state) in
  exists stamped w3,
    pushState [VObj ∅; VStr ""; VStr "/next"] w = Returned tt w3 /\
    calls w3 = [(0, OriginalReplaceState stamped [VStr ""]);
                (0, OriginalPushState [VObj ∅; VStr ""; VStr "/next"])] /\
    history_back w3 = [stamped] /\
    history_state w3 = VObj ∅ /\
    get_prop stamped "__scrollY" = Some (VNum (Fin 700)) /\
    own_props stamped !! "current" = Some (VStr "/list").
Proof.
  intros w.
  destruct (pushState_stamps_then_delegates [VObj ∅; VStr ""; VStr "/next"] w)
    as [(Hm & _) | (stamped & Hk & Hs & H)]; [discriminate Hm |].
  destruct (Hs eq_refl) as [_ Hy]. simpl in H.
  destruct H as (w3 & Hp & Hc & Hb & Hst).
  exists stamped, w3. repeat split; try assumption.
  rewrite Hk by discriminate. reflexivity.
Defined.

(** ** Effective options *)

Lemma num_or_nonzero (n : option Z) (d : Z) : d ≠ 0 -> Config.num_or n d ≠ 0.
Proof.
  intros Hd. unfold Config.num_or. destruct n as [z|]; [| exact Hd].
  destruct (Z.eqb_spec z 0); assumption.
Qed.

Lemma num_or_falsy (n : option Z) (d : Z) :
  n = None \/ n = Some 0 -> Config.num_or n d = d.
Proof. intros [-> | ->]; reflexivity. Qed.

(** C10. The plugin reads its two numbers with [||]: a field that is absent
    or 0, and an absent options object, give the defaults 3000 ms and 50 ms,
    so neither effective value is ever 0. This also holds for the options
    that [src/module.ts] passes on, which keep a user's explicit 0. *)
Theorem options_fall_back_when_falsy
    (rc user : option Config.ScrollRestorationOptions) :
  Config.SCROLL_RESTORATION_TIMEOUT_MS rc ≠ 0 /\
  Config.TRY_TO_SCROLL_INTERVAL_MS rc ≠ 0 /\
  Config.SCROLL_RESTORATION_TIMEOUT_MS None = 3000 /\
  Config.TRY_TO_SCROLL_INTERVAL_MS None = 50 /\
  (forall c, rc = Some c ->
     Config.scrollRestorationTimeoutMs c = None \/
     Config.scrollRestorationTimeoutMs c = Some 0 ->
     Config.SCROLL_RESTORATION_TIMEOUT_MS rc = 3000) /\
  (forall c, rc = Some c ->
     Config.tryToScrollIntervalMs c = None \/
     Config.tryToScrollIntervalMs c = Some 0 ->
     Config.TRY_TO_SCROLL_INTERVAL_MS rc = 50) /\
  (forall u, user = Some u -> Config.scrollRestorationTimeoutMs u = Some 0 ->
     Config.scrollRestorationTimeoutMs (Config.resolve_options user) = Some 0 /\
     Config.SCROLL_RESTORATION_TIMEOUT_MS
       (Config.setup (Config.resolve_options user)) = 3000) /\
  (forall u, user = Some u -> Config.tryToScrollIntervalMs u = Some 0 ->
     Config.tryToScrollIntervalMs (Config.resolve_options user) = Some 0 /\
     Config.TRY_TO_SCROLL_INTERVAL_MS
       (Config.setup (Config.resolve_options user)) = 50).
Proof.
  split; [apply num_or_nonzero; discriminate |].
  split; [apply num_or_nonzero; discriminate |].
  split; [reflexivity |]. split; [reflexivity |].
  split; [intros c -> H; apply num_or_falsy; exact H |].
  split; [intros c -> H; apply num_or_falsy; exact H |].
  split.
  - intros u -> Hu. unfold Config.SCROLL_RESTORATION_TIMEOUT_MS. simpl.
    rewrite Hu. split; reflexivity.
  - intros u -> Hu. unfold Config.TRY_TO_SCROLL_INTERVAL_MS. simpl.
    rewrite Hu. split; reflexivity.
Qed.

(** Both numbers set to 0 by the user: the plugin runs with 3000 and 50. *)
Lemma options_fall_back_when_falsy_witness :
  let user := Some (Config.mkOptions (Some 0) (Some 0) None) in
  Config.SCROLL_RESTORATION_TIMEOUT_MS (Config.setup (Config.resolve_options user)) = 3000 /\
  Config.TRY_TO_SCROLL_INTERVAL_MS (Config.setup (Config.resolve_options user)) = 50.
Proof.
  intros user.
  destruct (options_fall_back_when_falsy user user) as (_ & _ & _ & _ & _ & _ & Ht & Hi).
  split.
  - apply (Ht (Config.mkOptions (Some 0) (Some 0) None)); reflexivity.
  - apply (Hi (Config.mkOptions (Some 0) (Some 0) None)); reflexivity.
Defined.

(** ** Timers *)

Lemma timer_delay_0 : timer_delay 0 = 0.
Proof. reflexivity. Qed.

Lemma timer_delay_nonneg (ms : Z) : 0 <= timer_delay ms.
Proof. unfold timer_delay. lia. Qed.

(** The poll interval makes time advance for the default options, for an
    interval left out or set to 0, and for any interval that fits a timer. *)
Lemma poll_delay_positive (rc : option Config.ScrollRestorationOptions) :
  match Config.tryToScrollIntervalMs (Config.plugin_config rc) with
  | Some z => 0 <= z < 2147483648
  | None => True
  end ->
  0 < timer_delay (Config.TRY_TO_SCROLL_INTERVAL_MS rc).
Proof.
  unfold Config.TRY_TO_SCROLL_INTERVAL_MS, Config.num_or, timer_delay, to_long.
  destruct (Config.tryToScrollIntervalMs (Config.plugin_config rc)) as [z|].
  - intros Hz. destruct (Z.eqb_spec z 0) as [-> | Hne]; [reflexivity |].
    rewrite Z.mod_small by lia. lia.
  - intros _. reflexivity.
Qed.

(** ** Navigation finished *)

(** With a position to restore, [onPageFinish] defers the start of an
    attempt and does nothing else. *)
Lemma onPageFinish_defers (w : World) (sx sy : Z) :
  finite_scroll (or_else (poppedState w) (history_state w)) = Some (sx, sy) ->
  onPageFinish w =
  set_timers (timers w ++ [mkTimer (next_handle w) (now w) (CbBegin sx sy)])
    (S (next_handle w)) (set_poppedState VNull w).
Proof.
  intros H. unfold onPageFinish. rewrite H. unfold setTimeout. simpl.
  rewrite timer_delay_0, Z.add_0_r. reflexivity.
Qed.

(** A popped state with a position decides what is restored, whatever the
    current history entry holds. *)
Lemma onPageFinish_restores_popped (w : World) (px py : Z) :
  finite_scroll (poppedState w) = Some (px, py) ->
  poppedState (onPageFinish w) = VNull /\
  timers (onPageFinish w) =
    timers w ++ [mkTimer (next_handle w) (now w) (CbBegin px py)] /\
  calls (onPageFinish w) = calls w.
Proof.
  intros Hp.
  assert (Ht : truthy (poppedState w) = true).
  { apply finite_scroll_Some in Hp. tauto. }
  rewrite (onPageFinish_defers w px py).
  - repeat split; reflexivity.
  - unfold or_else. rewrite Ht. exact Hp.
Qed.

(** C6. When the resolved state is missing or does not hold finite
    [__scrollX] and [__scrollY], [onPageFinish] calls [scrollTo(0, 0)] at
    once and sets no timer: no attempt is started. *)
Theorem onPageFinish_without_position_scrolls_to_origin (w : World) :
  finite_scroll (or_else (poppedState w) (history_state w)) = None ->
  calls (onPageFinish w) = calls w ++ [(now w, ScrollTo 0 0)] /\
  timers (onPageFinish w) = timers w /\
  next_handle (onPageFinish w) = next_handle w /\
  timeoutHandle (onPageFinish w) = timeoutHandle w /\
  now (onPageFinish w) = now w.
Proof.
  intros H. unfold onPageFinish. rewrite H. repeat split; reflexivity.
Qed.

(** An entry that holds only the router's fields. *)
Lemma onPageFinish_without_position_scrolls_to_origin_witness :
  let w := Sample.fresh (Sample.growing 0) Sample.router_state in
  calls (onPageFinish w) = [(0, ScrollTo 0 0)] /\ timers (onPageFinish w) = [].
Proof.
  intros w.
  destruct (onPageFinish_without_position_scrolls_to_origin w eq_refl)
    as (Hc & Ht & _).
  split; [exact Hc | exact Ht].
Defined.

(** ** One step of [tryToScrollTo] *)

Lemma may_scroll_test (d : Dom) (sbw time : Z) (t : ScrollTarget) :
  (Z.geb (documentWidth d + sbw - innerWidth d) (x t)
   && Z.geb (documentHeight d + sbw - innerHeight d) (y t)
   || Z.gtb time (latestTimeToTry t)) = true <-> may_scroll d sbw time t.
Proof.
  unfold may_scroll, reachable.
  rewrite orb_true_iff, andb_true_iff, !Z.geb_le, Z.gtb_lt. lia.
Qed.

Lemma may_scroll_dec (d : Dom) (sbw time : Z) (t : ScrollTarget) :
  {may_scroll d sbw time t} + {~ may_scroll d sbw time t}.
Proof.
  destruct (Z.geb (documentWidth d + sbw - innerWidth d) (x t)
            && Z.geb (documentHeight d + sbw - innerHeight d) (y t)
            || Z.gtb time (latestTimeToTry t)) eqn:E.
  - left. apply may_scroll_test. exact E.
  - right. intros H. apply may_scroll_test in H. congruence.
Qed.

(** The world in which [tryToScrollTo] takes its decision: the previous
    poll is cancelled and the scrollbar width is known. *)
Lemma tryToScrollTo_prepares (w : World) :
  (if Z.eqb (scrollBarWidth (clearTimeout (timeoutHandle w) w)) 0
   then set_scrollBarWidth
          (getScrollbarWidth (dom (clearTimeout (timeoutHandle w) w)))
          (clearTimeout (timeoutHandle w) w)
   else clearTimeout (timeoutHandle w) w) =
  set_scrollBarWidth (scrollbar_in_use w) (clearTimeout (timeoutHandle w) w).
Proof.
  unfold scrollbar_in_use. destruct w as [? ? ? ? ? ? ? ? ? ? [h|] sbw]; simpl;
    destruct (Z.eqb sbw 0); reflexivity.
Qed.

Lemma tryToScrollTo_scrolls
    (rc : option Config.ScrollRestorationOptions) (t : ScrollTarget) (w : World) :
  may_scroll (dom w) (scrollbar_in_use w) (now w) t ->
  tryToScrollTo rc t w =
  scrollTo (x t) (y t)
    (set_scrollBarWidth (scrollbar_in_use w) (clearTimeout (timeoutHandle w) w)).
Proof.
  intros H. unfold tryToScrollTo. rewrite tryToScrollTo_prepares.
  apply may_scroll_test in H.
  replace (dom (set_scrollBarWidth _ _)) with (dom w)
    by (destruct w as [? ? ? ? ? ? ? ? ? ? [h|] ?]; reflexivity).
  replace (now (set_scrollBarWidth _ _)) with (now w)
    by (destruct w as [? ? ? ? ? ? ? ? ? ? [h|] ?]; reflexivity).
  simpl. rewrite H. reflexivity.
Qed.

Lemma tryToScrollTo_reschedules
    (rc : option Config.ScrollRestorationOptions) (t : ScrollTarget) (w : World) :
  ~ may_scroll (dom w) (scrollbar_in_use w) (now w) t ->
  tryToScrollTo rc t w =
  set_timeoutHandle (Some (next_handle w))
    (set_timers
       (timers (clearTimeout (timeoutHandle w) w) ++
        [mkTimer (next_handle w)
           (now w + timer_delay (Config.TRY_TO_SCROLL_INTERVAL_MS rc)) (CbPoll t)])
       (S (next_handle w))
       (set_scrollBarWidth (scrollbar_in_use w) (clearTimeout (timeoutHandle w) w))).
Proof.
  intros H. unfold tryToScrollTo. rewrite tryToScrollTo_prepares.
  replace (dom (set_scrollBarWidth _ _)) with (dom w)
    by (destruct w as [? ? ? ? ? ? ? ? ? ? [h|] ?]; reflexivity).
  replace (now (set_scrollBarWidth _ _)) with (now w)
    by (destruct w as [? ? ? ? ? ? ? ? ? ? [h|] ?]; reflexivity).
  simpl.
  destruct (_ && _ || _) eqn:E.
  - exfalso. apply H. apply may_scroll_test. exact E.
  - destruct w as [? ? ? ? ? ? ? ? ? ? [h|] ?]; reflexivity.
Qed.

(** The pending timers once [clearTimeout(timeoutHandle)] has run. *)
Lemma clearTimeout_timers (h : option nat) (w : World) :
  timers (clearTimeout h w) =
  match h with
  | Some n => filter (fun tm => handle tm ≠ n) (timers w)
  | None => timers w
  end.
Proof. destruct h; reflexivity. Qed.

(** ** Running the event loop *)

Lemma earliest_nil_inv (ts : list timer) : earliest ts = None -> ts = [].
Proof.
  destruct ts as [|tm r]; [reflexivity |]. simpl.
  destruct (earliest r) as [tm'|]; [| discriminate].
  destruct (Z.ltb (due tm') (due tm)); discriminate.
Qed.

Lemma run_idle (rc : option Config.ScrollRestorationOptions) (layout : Z -> Dom)
    (fuel : nat) (w : World) :
  timers w = [] -> run rc layout fuel w = w.
Proof.
  intros H. destruct fuel as [|f]; [reflexivity |].
  simpl. unfold tick. rewrite H. reflexivity.
Qed.

Lemma run_step (rc : option Config.ScrollRestorationOptions) (layout : Z -> Dom)
    (fuel : nat) (w w' : World) :
  tick rc layout w = Some w' -> run rc layout (S fuel) w = run rc layout fuel w'.
Proof. intros H. simpl. rewrite H. reflexivity. Qed.

Lemma run_add (rc : option Config.ScrollRestorationOptions) (layout : Z -> Dom)
    (a b : nat) (w : World) :
  run rc layout (a + b) w = run rc layout b (run rc layout a w).
Proof.
  revert w. induction a as [|a IH]; intros w; [reflexivity |].
  simpl. destruct (tick rc layout w) as [w'|] eqn:E.
  - apply IH.
  - unfold tick in E. destruct (earliest (timers w)) eqn:Ee; [discriminate |].
    symmetry. apply run_idle. apply earliest_nil_inv. exact Ee.
Qed.

(** C1. A step of [tryToScrollTo] for a target [t] calls
    [scrollTo(t.x, t.y)] if and only if the document is large enough in both
    axes ([documentWidth + scrollBarWidth - innerWidth >= t.x] and likewise
    for the height) or the clock has passed [t.latestTimeToTry]; a step that
    scrolls sets no timer, and a step that does not scroll makes no call and
    sets one timer for the same target, one poll interval ahead. On the page
    whose reachable height grows from 500 to 1200 with the target (0, 1000),
    the polls at 0, 50, ..., 200 ms make no call, the poll at 250 ms, the
    first one that sees a reachable height of 1000, makes the one call
    [scrollTo(0, 1000)], well before the deadline at 3000 ms, and nothing
    happens after it. *)
Theorem tryToScrollTo_scrolls_iff_reachable_or_late
    (rc : option Config.ScrollRestorationOptions) (t : ScrollTarget) (w : World) :
  let w' := tryToScrollTo rc t w in
  let pending := timers (clearTimeout (timeoutHandle w) w) in
  (may_scroll (dom w) (scrollbar_in_use w) (now w) t <->
   calls w' = calls w ++ [(now w, ScrollTo (x t) (y t))]) /\
  (may_scroll (dom w) (scrollbar_in_use w) (now w) t -> timers w' = pending) /\
  (~ may_scroll (dom w) (scrollbar_in_use w) (now w) t ->
   calls w' = calls w /\
   timers w' =
     pending ++ [mkTimer (next_handle w)
                   (now w + timer_delay (Config.TRY_TO_SCROLL_INTERVAL_MS rc))
                   (CbPoll t)]) /\
  (map (fun n => (now (run None Sample.growing n Sample.growing_start),
                  calls (run None Sample.growing n Sample.growing_start)))
       [1; 2; 3; 4; 5]%nat
   = [(0, []); (50, []); (100, []); (150, []); (200, [])] /\
   map (fun time => Sample.reachable_height (Sample.growing time))
       [0; 50; 100; 150; 200; 250]
   = [500; 600; 700; 800; 900; 1000] /\
   Sample.reachable_height (Sample.growing 400) = 1200 /\
   calls (run None Sample.growing 6 Sample.growing_start) = [(250, ScrollTo 0 1000)] /\
   250 < 0 + Config.SCROLL_RESTORATION_TIMEOUT_MS None /\
   forall n, run None Sample.growing (6 + n) Sample.growing_start
             = run None Sample.growing 6 Sample.growing_start).
Proof.
  intros w' pending. subst w' pending.
  destruct (may_scroll_dec (dom w) (scrollbar_in_use w) (now w) t) as [H | H].
  - rewrite (tryToScrollTo_scrolls rc t w H).
    split; [split; [intros _ |intros _; exact H] |].
    { destruct w as [? ? ? ? ? ? ? ? ? ? [h|] ?]; reflexivity. }
    split; [intros _; destruct w as [? ? ? ? ? ? ? ? ? ? [h|] ?]; reflexivity |].
    split; [intros H'; contradiction |].
    repeat split; try reflexivity.
    intros n. rewrite run_add. apply run_idle. reflexivity.
  - rewrite (tryToScrollTo_reschedules rc t w H).
    split; [split; [intros H'; contradiction |] |].
    { replace (calls (set_timeoutHandle _ _)) with (calls w)
        by (destruct w as [? ? ? ? ? ? ? ? ? ? [h|] ?]; reflexivity).
      intros E. exfalso.
      apply (f_equal (@length _)) in E. rewrite length_app in E. simpl in E. lia. }
    split; [intros H'; contradiction |].
    split; [intros _; split; destruct w as [? ? ? ? ? ? ? ? ? ? [h|] ?]; reflexivity |].
    repeat split; try reflexivity.
    intros n. rewrite run_add. apply run_idle. reflexivity.
Qed.

(** At the fifth poll of the growing page the reachable height is 900:
    no call, and one timer for the same target at 250 ms. *)
Lemma tryToScrollTo_scrolls_iff_reachable_or_late_witness :
  let w := set_browser_time 200 (Sample.growing 200)
             (run None Sample.growing 4 Sample.growing_start) in
  let t := mkTarget 0 1000 3000 in
  ~ may_scroll (dom w) (scrollbar_in_use w) (now w) t /\
  calls (tryToScrollTo None t w) = [] /\
  timers (tryToScrollTo None t w) =
    timers (clearTimeout (timeoutHandle w) w) ++ [mkTimer 6 250 (CbPoll t)].
Proof.
  intros w t.
  assert (H : ~ may_scroll (dom w) (scrollbar_in_use w) (now w) t).
  { intros [[_ Hy] | Hl];
      [vm_compute in Hy; apply Hy; reflexivity | vm_compute in Hl; discriminate Hl]. }
  split; [exact H |].
  destruct (tryToScrollTo_scrolls_iff_reachable_or_late None t w) as (_ & _ & Hr & _).
  destruct (Hr H) as [Hc Ht]. split; [exact Hc | exact Ht].
Defined.

(** ** Termination of an attempt *)

Lemma tryToScrollTo_scrolls_fields
    (rc : option Config.ScrollRestorationOptions) (t : ScrollTarget) (w : World) :
  may_scroll (dom w) (scrollbar_in_use w) (now w) t ->
  timers (tryToScrollTo rc t w) = timers (clearTimeout (timeoutHandle w) w) /\
  calls (tryToScrollTo rc t w) = calls w ++ [(now w, ScrollTo (x t) (y t))] /\
  now (tryToScrollTo rc t w) = now w /\
  next_handle (tryToScrollTo rc t w) = next_handle w /\
  timeoutHandle (tryToScrollTo rc t w) = timeoutHandle w.
Proof.
  intros H. rewrite (tryToScrollTo_scrolls rc t w H).
  destruct w as [? ? ? ? ? ? ? ? ? ? [h|] ?]; repeat split; reflexivity.
Qed.

Lemma tryToScrollTo_reschedules_fields
    (rc : option Config.ScrollRestorationOptions) (t : ScrollTarget) (w : World) :
  ~ may_scroll (dom w) (scrollbar_in_use w) (now w) t ->
  timers (tryToScrollTo rc t w) =
    timers (clearTimeout (timeoutHandle w) w) ++
    [mkTimer (next_handle w)
       (now w + timer_delay (Config.TRY_TO_SCROLL_INTERVAL_MS rc)) (CbPoll t)] /\
  calls (tryToScrollTo rc t w) = calls w /\
  now (tryToScrollTo rc t w) = now w /\
  next_handle (tryToScrollTo rc t w) = S (next_handle w) /\
  timeoutHandle (tryToScrollTo rc t w) = Some (next_handle w).
Proof.
  intros H. rewrite (tryToScrollTo_reschedules rc t w H).
  destruct w as [? ? ? ? ? ? ? ? ? ? [h|] ?]; repeat split; reflexivity.
Qed.

Lemma clearTimeout_idle (h : option nat) (w : World) :
  timers w = [] -> timers (clearTimeout h w) = [].
Proof. intros H. rewrite clearTimeout_timers, H. destruct h; reflexivity. Qed.

(** The world in which the only pending timer [tm] runs its closure. *)
Lemma tick_single (rc : option Config.ScrollRestorationOptions) (layout : Z -> Dom)
    (w : World) (tm : timer) :
  timers w = [tm] -> now w <= due tm ->
  exists wb,
    tick rc layout w = Some (run_callback rc (cb tm) wb) /\
    timers wb = [] /\ now wb = due tm /\ dom wb = layout (due tm) /\
    calls wb = calls w /\ scrollBarWidth wb = scrollBarWidth w.
Proof.
  intros Ht Hn.
  exists (set_timers [] (next_handle w)
            (set_browser_time (due tm) (layout (due tm)) w)).
  split; [| repeat split; reflexivity].
  unfold tick. rewrite Ht. simpl. rewrite Z.max_r by exact Hn.
  unfold fire, dequeue. simpl. rewrite Ht.
  rewrite filter_cons_False by (intros H; apply H; reflexivity).
  reflexivity.
Qed.

Section Polling.

Variable rc : option Config.ScrollRestorationOptions.
Variable layout : Z -> Dom.

Local Abbreviation delay := (poll_delay rc).

Hypothesis delay_pos : 0 < delay.

(** A pending poll whose deadline is fewer than [n] intervals away ends
    within [n + 1] steps of the event loop, with one call [scrollTo]. *)
Lemma poll_loop_ends (n : nat) :
  forall (w : World) (tm : timer) (t : ScrollTarget),
    timers w = [tm] -> cb tm = CbPoll t -> now w <= due tm ->
    latestTimeToTry t - due tm < Z.of_nat n * delay ->
    exists fuel time,
      (fuel <= S n)%nat /\
      timers (run rc layout fuel w) = [] /\
      calls (run rc layout fuel w) = calls w ++ [(time, ScrollTo (x t) (y t))] /\
      due tm <= time <= Z.max (due tm) (latestTimeToTry t + delay).
Proof.
  induction n as [|n IH]; intros w tm t Ht Hcb Hn Hlate;
    destruct (tick_single rc layout w tm Ht Hn)
      as (wb & Htick & Htb & Hnb & _ & Hcalls & _);
    rewrite Hcb in Htick; simpl in Htick;
    destruct (may_scroll_dec (dom wb) (scrollbar_in_use wb) (now wb) t) as [Hs | Hs].
  - destruct (tryToScrollTo_scrolls_fields rc t wb Hs) as (Hts & Hcs & _).
    exists 1%nat, (due tm). rewrite (run_step _ _ _ _ _ Htick). cbn [run].
    rewrite Hts, Hcs, Hcalls, Hnb, (clearTimeout_idle _ _ Htb).
    repeat split; try reflexivity; lia.
  - exfalso. apply Hs. right. lia.
  - destruct (tryToScrollTo_scrolls_fields rc t wb Hs) as (Hts & Hcs & _).
    exists 1%nat, (due tm). rewrite (run_step _ _ _ _ _ Htick). cbn [run].
    rewrite Hts, Hcs, Hcalls, Hnb, (clearTimeout_idle _ _ Htb).
    repeat split; try reflexivity; lia.
  - destruct (tryToScrollTo_reschedules_fields rc t wb Hs) as (Htr & Hcr & Hnr & _).
    rewrite (clearTimeout_idle _ _ Htb) in Htr. simpl in Htr.
    assert (Hle : due tm <= latestTimeToTry t).
    { destruct (Z_le_gt_dec (due tm) (latestTimeToTry t)) as [Hle | Hgt]; [exact Hle |].
      exfalso. apply Hs. right. lia. }
    destruct (IH (tryToScrollTo rc t wb) _ t Htr eq_refl) as (fuel & time & Hf & Hdone & Hc & Hbound).
    + simpl. fold delay. lia.
    + simpl. fold delay. lia.
    + exists (S fuel), time. rewrite (run_step _ _ _ _ _ Htick).
      split; [lia |]. split; [exact Hdone |].
      split; [rewrite Hc, Hcr, Hcalls; reflexivity |].
      simpl in Hbound. fold delay in Hbound. lia.
Qed.

(** From an idle plugin, a navigation-finished trigger with a position to
    restore ends in one call [scrollTo] to that position. *)
Lemma attempt_ends (w0 : World) (sx sy : Z) :
  timers w0 = [] ->
  finite_scroll (or_else (poppedState w0) (history_state w0)) = Some (sx, sy) ->
  exists fuel time,
    Z.of_nat fuel <= 2 + Z.max 0 (Config.SCROLL_RESTORATION_TIMEOUT_MS rc) / delay /\
    timers (run rc layout fuel (onPageFinish w0)) = [] /\
    calls (run rc layout fuel (onPageFinish w0)) =
      calls w0 ++ [(time, ScrollTo sx sy)] /\
    now w0 <= time <=
      Z.max (now w0) (now w0 + Config.SCROLL_RESTORATION_TIMEOUT_MS rc + delay).
Proof.
  intros Hidle Hpos.
  set (T := Config.SCROLL_RESTORATION_TIMEOUT_MS rc).
  rewrite (onPageFinish_defers w0 sx sy Hpos). rewrite Hidle. simpl.
  set (w1 := set_timers _ _ _).
  destruct (tick_single rc layout w1 (mkTimer (next_handle w0) (now w0) (CbBegin sx sy)))
    as (wb & Htick & Htb & Hnb & _ & Hcalls & _); [reflexivity | simpl; lia |].
  simpl in Htick, Hnb, Hcalls. rewrite Hnb in Htick. fold T in Htick.
  set (t := mkTarget sx sy (now w0 + T)) in *.
  assert (Hdiv : 0 <= Z.max 0 T / delay) by (apply Z.div_pos; lia).
  destruct (may_scroll_dec (dom wb) (scrollbar_in_use wb) (now wb) t) as [Hs | Hs].
  - destruct (tryToScrollTo_scrolls_fields rc t wb Hs) as (Hts & Hcs & _).
    exists 1%nat, (now w0). rewrite (run_step _ _ _ _ _ Htick). cbn [run].
    rewrite Hts, Hcs, Hcalls, Hnb, (clearTimeout_idle _ _ Htb).
    repeat split; try reflexivity; lia.
  - destruct (tryToScrollTo_reschedules_fields rc t wb Hs) as (Htr & Hcr & Hnr & _).
    rewrite (clearTimeout_idle _ _ Htb) in Htr. simpl in Htr.
    assert (HT : 0 <= T).
    { destruct (Z_le_gt_dec 0 T) as [Hle | Hgt]; [exact Hle |].
      exfalso. apply Hs. right. simpl. lia. }
    pose proof (Z.mod_pos_bound T delay delay_pos) as Hmod.
    pose proof (Z.div_mod T delay ltac:(lia)) as Hdm.
    destruct (poll_loop_ends (Z.to_nat (T / delay)) (tryToScrollTo rc t wb) _ t Htr eq_refl)
      as (fuel & time & Hf & Hdone & Hc & Hbound).
    + simpl. fold delay. lia.
    + simpl. fold delay. rewrite Z2Nat.id by (apply Z.div_pos; lia). nia.
    + exists (S fuel), time. rewrite (run_step _ _ _ _ _ Htick).
      split.
      { rewrite Z.max_r by exact HT.
        assert (0 <= T / delay) by (apply Z.div_pos; lia). lia. }
      split; [exact Hdone |].
      split; [rewrite Hc, Hcr, Hcalls; reflexivity |].
      simpl in Hbound. fold delay in Hbound. lia.
Qed.

End Polling.

(** ** The event loop runs out of timers *)

Lemma earliest_In (ts : list timer) (tm : timer) : earliest ts = Some tm -> tm ∈ ts.
Proof.
  revert tm. induction ts as [|tm0 r IH]; intros tm; simpl; [discriminate |].
  destruct (earliest r) as [tm'|].
  - destruct (Z.ltb (due tm') (due tm0)); intros [= <-].
    + apply elem_of_cons. right. apply IH. reflexivity.
    + apply elem_of_cons. left. reflexivity.
  - intros [= <-]. apply elem_of_cons. left. reflexivity.
Qed.

Lemma weight_pos (rc : option Config.ScrollRestorationOptions) (tm : timer) :
  (1 <= weight rc tm)%nat.
Proof. unfold weight. destruct (cb tm); lia. Qed.

Lemma pending_weight_app (rc : option Config.ScrollRestorationOptions)
    (a b : list timer) :
  pending_weight rc (a ++ b) = (pending_weight rc a + pending_weight rc b)%nat.
Proof.
  induction a as [|tm r IH]; simpl; [reflexivity |].
  unfold pending_weight in *. simpl. rewrite IH. lia.
Qed.

Lemma pending_weight_filter (rc : option Config.ScrollRestorationOptions)
    (P : timer -> Prop) `{forall tm, Decision (P tm)} (ts : list timer) :
  (pending_weight rc (filter P ts) <= pending_weight rc ts)%nat.
Proof.
  induction ts as [|tm r IH]; simpl; [reflexivity |].
  rewrite filter_cons. unfold pending_weight in *.
  destruct (decide (P tm)); simpl; lia.
Qed.

Lemma pending_weight_dequeue (rc : option Config.ScrollRestorationOptions)
    (ts : list timer) (tm : timer) :
  tm ∈ ts ->
  (pending_weight rc (filter (fun t' => handle t' ≠ handle tm) ts) + weight rc tm
   <= pending_weight rc ts)%nat.
Proof.
  induction ts as [|tm0 r IH]; intros Hin; [inversion Hin |].
  rewrite filter_cons.
  destruct (decide (handle tm0 ≠ handle tm)) as [Hne | Heq].
  - apply elem_of_cons in Hin as [-> | Hin]; [congruence |].
    specialize (IH Hin). unfold pending_weight in *. simpl. lia.
  - apply elem_of_cons in Hin as [-> | Hin].
    + pose proof (pending_weight_filter rc (fun t' => handle t' ≠ handle tm0) r) as Hle.
      unfold pending_weight in *. simpl. lia.
    + specialize (IH Hin). unfold pending_weight in *. simpl. lia.
Qed.

Lemma pending_weight_cleared (rc : option Config.ScrollRestorationOptions)
    (h : option nat) (w : World) :
  (pending_weight rc (timers (clearTimeout h w)) <= pending_weight rc (timers w))%nat.
Proof.
  rewrite clearTimeout_timers. destruct h; [| reflexivity].
  apply pending_weight_filter.
Qed.

Lemma pending_weight_0 (rc : option Config.ScrollRestorationOptions) (ts : list timer) :
  pending_weight rc ts = 0%nat -> ts = [].
Proof.
  destruct ts as [|tm r]; [reflexivity |]. unfold pending_weight. simpl.
  pose proof (weight_pos rc tm). lia.
Qed.

Section Draining.

Variable rc : option Config.ScrollRestorationOptions.
Variable layout : Z -> Dom.

Local Abbreviation delay := (poll_delay rc).

Hypothesis delay_pos : 0 < delay.

(** A step of [tryToScrollTo] adds at most the weight of the poll it sets. *)
Lemma tryToScrollTo_weight (t : ScrollTarget) (w : World) (n : nat) :
  (now w <= latestTimeToTry t ->
   (S (Z.to_nat ((latestTimeToTry t - (now w + delay)) / delay + 1)) <= n)%nat) ->
  (pending_weight rc (timers (tryToScrollTo rc t w))
   <= pending_weight rc (timers w) + n)%nat.
Proof.
  intros Hn. pose proof (pending_weight_cleared rc (timeoutHandle w) w) as Hc.
  destruct (may_scroll_dec (dom w) (scrollbar_in_use w) (now w) t) as [Hs | Hs].
  - destruct (tryToScrollTo_scrolls_fields rc t w Hs) as (Ht & _). rewrite Ht. lia.
  - destruct (tryToScrollTo_reschedules_fields rc t w Hs) as (Ht & _). rewrite Ht.
    rewrite pending_weight_app.
    assert (Hle : now w <= latestTimeToTry t).
    { destruct (Z_le_gt_dec (now w) (latestTimeToTry t)) as [Hle | Hgt]; [exact Hle |].
      exfalso. apply Hs. right. lia. }
    specialize (Hn Hle).
    unfold pending_weight at 2. simpl. unfold weight. simpl. fold delay. lia.
Qed.

(** Every step of the event loop uses up some of the pending weight. *)
Lemma tick_weight (w w' : World) :
  tick rc layout w = Some w' ->
  (pending_weight rc (timers w') < pending_weight rc (timers w))%nat.
Proof.
  unfold tick. destruct (earliest (timers w)) as [tm|] eqn:E; [| discriminate].
  intros [= <-]. apply earliest_In in E.
  set (wa := set_browser_time _ _ w).
  assert (Hnow : now (dequeue tm wa) = Z.max (now w) (due tm)) by reflexivity.
  pose proof (pending_weight_dequeue rc (timers w) tm E) as Hd.
  change (filter _ (timers w)) with (timers (dequeue tm wa)) in Hd.
  unfold fire, run_callback. destruct (cb tm) as [sx sy | t] eqn:Hcb.
  - pose proof (tryToScrollTo_weight
        (mkTarget sx sy (now (dequeue tm wa) + Config.SCROLL_RESTORATION_TIMEOUT_MS rc))
        (dequeue tm wa) (attempt_steps rc)) as Ht.
    unfold weight in Hd. rewrite Hcb in Hd.
    assert (pending_weight rc (timers (tryToScrollTo rc
              (mkTarget sx sy (now (dequeue tm wa) + Config.SCROLL_RESTORATION_TIMEOUT_MS rc))
              (dequeue tm wa)))
            <= pending_weight rc (timers (dequeue tm wa)) + attempt_steps rc)%nat; [| lia].
    apply Ht. simpl. intros HT. unfold attempt_steps. fold delay.
    replace (Z.max (now w) (due tm) + Config.SCROLL_RESTORATION_TIMEOUT_MS rc
             - (Z.max (now w) (due tm) + delay))
      with (Config.SCROLL_RESTORATION_TIMEOUT_MS rc + (-1) * delay) by lia.
    rewrite Z.div_add by lia.
    replace (Config.SCROLL_RESTORATION_TIMEOUT_MS rc / delay + -1 + 1)
      with (Config.SCROLL_RESTORATION_TIMEOUT_MS rc / delay) by lia.
    reflexivity.
  - pose proof (tryToScrollTo_weight t (dequeue tm wa)
        (Z.to_nat ((latestTimeToTry t - due tm) / delay + 1))) as Ht.
    unfold weight in Hd. rewrite Hcb in Hd. fold delay in Hd.
    assert (pending_weight rc (timers (tryToScrollTo rc t (dequeue tm wa)))
            <= pending_weight rc (timers (dequeue tm wa))
               + Z.to_nat ((latestTimeToTry t - due tm) / delay + 1))%nat; [| lia].
    apply Ht. rewrite Hnow. intros Hle.
    replace (latestTimeToTry t - (Z.max (now w) (due tm) + delay))
      with (latestTimeToTry t - Z.max (now w) (due tm) + (-1) * delay) by lia.
    rewrite Z.div_add by lia.
    assert (H0 : 0 <= (latestTimeToTry t - Z.max (now w) (due tm)) / delay)
      by (apply Z.div_pos; lia).
    assert (H1 : (latestTimeToTry t - Z.max (now w) (due tm)) / delay
                 <= (latestTimeToTry t - due tm) / delay)
      by (apply Z.div_le_mono; lia).
    lia.
Qed.

(** Left alone, the event loop runs out of timers, in at most as many steps
    as the pending timers weigh. *)
Lemma run_drains (n : nat) :
  forall w, (pending_weight rc (timers w) <= n)%nat ->
            timers (run rc layout n w) = [].
Proof.
  induction n as [|n IH]; intros w Hw.
  - simpl. apply (pending_weight_0 rc). lia.
  - destruct (tick rc layout w) as [w'|] eqn:E.
    + rewrite (run_step _ _ _ _ _ E). apply IH.
      pose proof (tick_weight w w' E). lia.
    + simpl. rewrite E. unfold tick in E.
      destruct (earliest (timers w)) eqn:Ee; [discriminate |].
      apply earliest_nil_inv. exact Ee.
Qed.

End Draining.

(** C2. An attempt ends. With a poll interval that makes time advance, the
    event loop left alone runs out of timers from any state, in at most as
    many steps as the pending timers weigh: no polling goes on for ever.
    From an idle plugin, a navigation-finished trigger with a stored position
    (sx, sy) leads, whatever the page does and after at most
    [2 + timeout / interval] steps, to a state with no pending timer in which
    exactly one call has been made, [scrollTo(sx, sy)]; the call comes no
    later than one poll interval after the deadline, and nothing happens
    after it. On the page whose reachable height stays at 800, with the
    target (0, 5000), a timeout of 300 ms and an interval of 50 ms, the polls
    up to 300 ms make no call and the poll at 350 ms makes the call
    [scrollTo(0, 5000)]. *)
Theorem attempt_terminates_with_one_scroll
    (rc : option Config.ScrollRestorationOptions) (layout : Z -> Dom) :
  0 < timer_delay (Config.TRY_TO_SCROLL_INTERVAL_MS rc) ->
  (forall w, timers (run rc layout (pending_weight rc (timers w)) w) = []) /\
  (forall w0 sx sy,
     timers w0 = [] ->
     finite_scroll (or_else (poppedState w0) (history_state w0)) = Some (sx, sy) ->
     exists fuel time,
       Z.of_nat fuel <=
         2 + Z.max 0 (Config.SCROLL_RESTORATION_TIMEOUT_MS rc)
             / timer_delay (Config.TRY_TO_SCROLL_INTERVAL_MS rc) /\
       timers (run rc layout fuel (onPageFinish w0)) = [] /\
       calls (run rc layout fuel (onPageFinish w0)) =
         calls w0 ++ [(time, ScrollTo sx sy)] /\
       now w0 <= time <=
         Z.max (now w0)
           (now w0 + Config.SCROLL_RESTORATION_TIMEOUT_MS rc
            + timer_delay (Config.TRY_TO_SCROLL_INTERVAL_MS rc)) /\
       forall more,
         run rc layout (fuel + more) (onPageFinish w0) =
         run rc layout fuel (onPageFinish w0)) /\
  ((forall time, Sample.reachable_height (Sample.short time) = 800) /\
   map (fun n => (now (run Sample.quick Sample.short n Sample.short_start),
                  calls (run Sample.quick Sample.short n Sample.short_start)))
       [1; 2; 3; 4; 5; 6; 7]%nat
   = [(0, []); (50, []); (100, []); (150, []); (200, []); (250, []); (300, [])] /\
   calls (run Sample.quick Sample.short 8 Sample.short_start) = [(350, ScrollTo 0 5000)] /\
   timers (run Sample.quick Sample.short 8 Sample.short_start) = []).
Proof.
  intros Hdelay. split; [| split].
  - intros w. apply (run_drains rc layout Hdelay). reflexivity.
  - intros w0 sx sy Hidle Hpos.
    destruct (attempt_ends rc layout Hdelay w0 sx sy Hidle Hpos)
      as (fuel & time & Hf & Hdone & Hc & Hb).
    unfold poll_delay in Hf, Hb.
    exists fuel, time. repeat split; try assumption; try lia.
    intros more. rewrite run_add. apply run_idle. exact Hdone.
  - repeat split; vm_compute; reflexivity.
Qed.

(** The timeout scenario: the one call is made 350 ms after the trigger,
    one interval after the deadline at 300 ms. *)
Lemma attempt_terminates_with_one_scroll_witness :
  exists fuel time,
    calls (run Sample.quick Sample.short fuel Sample.short_start) =
      [(time, ScrollTo 0 5000)] /\
    timers (run Sample.quick Sample.short fuel Sample.short_start) = [] /\
    0 <= time <= 350.
Proof.
  destruct (attempt_terminates_with_one_scroll Sample.quick Sample.short)
    as (_ & Hone & _); [reflexivity |].
  destruct (Hone (Sample.fresh (Sample.short 0) (Sample.stored 0 5000)) 0 5000)
    as (fuel & time & _ & Hdone & Hc & Hb & _); [reflexivity | reflexivity |].
  exists fuel, time. split; [exact Hc |]. split; [exact Hdone |]. exact Hb.
Defined.

(** ** Handlers that leave the timers alone *)

Lemma replaceState_timers (state : value) (otherArgs : list value) (w : World) :
  timers (world_of (replaceState state otherArgs w)) = timers w /\
  next_handle (world_of (replaceState state otherArgs w)) = next_handle w /\
  timeoutHandle (world_of (replaceState state otherArgs w)) = timeoutHandle w /\
  poppedState (world_of (replaceState state otherArgs w)) = poppedState w.
Proof.
  destruct (replaceState_cases state otherArgs w) as [(sx & sy & -> & _) | (_ & _ & ->)].
  - unfold originalReplaceState. destruct (native_fault w _); repeat split; reflexivity.
  - repeat split; reflexivity.
Qed.

Lemma pushState_timers (args : list value) (w : World) :
  timers (world_of (pushState args w)) = timers w /\
  next_handle (world_of (pushState args w)) = next_handle w /\
  timeoutHandle (world_of (pushState args w)) = timeoutHandle w /\
  poppedState (world_of (pushState args w)) = poppedState w.
Proof.
  unfold pushState, bind.
  destruct (replaceState_cases (history_state w) [VStr ""] w)
    as [(sx & sy & -> & _) | (_ & _ & ->)]; [| repeat split; reflexivity].
  unfold originalReplaceState, originalPushState. simpl.
  destruct (native_fault w (OriginalReplaceState _ _)); simpl;
    [repeat split; reflexivity |].
  destruct (native_fault w (OriginalPushState args)); repeat split; reflexivity.
Qed.

(** ** Timers of the plugin *)

Lemma filter_handles_subset (P : timer -> Prop) `{forall tm, Decision (P tm)}
    (ts : list timer) (tm : timer) :
  tm ∈ filter P ts -> tm ∈ ts.
Proof. intros Hin. apply list_elem_of_filter in Hin. tauto. Qed.

Lemma NoDup_handles_filter (P : timer -> Prop) `{forall tm, Decision (P tm)}
    (ts : list timer) :
  NoDup (handle <$> ts) -> NoDup (handle <$> filter P ts).
Proof.
  induction ts as [|tm r IH]; simpl; intros Hnd; [constructor |].
  apply NoDup_cons in Hnd as [Hnotin Hnd].
  rewrite filter_cons. destruct (decide (P tm)); [| apply IH; exact Hnd].
  simpl. apply NoDup_cons. split; [| apply IH; exact Hnd].
  intros Hin. apply Hnotin.
  apply list_elem_of_fmap in Hin as (tm' & -> & Hin').
  apply list_elem_of_fmap. exists tm'. split; [reflexivity |].
  eapply filter_handles_subset. exact Hin'.
Qed.

Lemma NoDup_handles_snoc (ts : list timer) (tm : timer) :
  NoDup (handle <$> ts) ->
  (forall tm', tm' ∈ ts -> (handle tm' < handle tm)%nat) ->
  NoDup (handle <$> (ts ++ [tm])).
Proof.
  intros Hnd Hlt. rewrite fmap_app. apply NoDup_app. split; [exact Hnd |].
  split; [| simpl; apply NoDup_singleton].
  intros h Hin Hin'. simpl in Hin'. apply list_elem_of_singleton in Hin'. subst h.
  apply list_elem_of_fmap in Hin as (tm' & Heq & Hin).
  specialize (Hlt tm' Hin). lia.
Qed.

(** Timers that do not share handles are told apart by their handle. *)
Lemma same_handle_same_timer (ts : list timer) (tm1 tm2 : timer) :
  NoDup (handle <$> ts) -> tm1 ∈ ts -> tm2 ∈ ts -> handle tm1 = handle tm2 ->
  tm1 = tm2.
Proof.
  induction ts as [|tm r IH]; intros Hnd H1 H2 Heq; [inversion H1 |].
  simpl in Hnd. apply NoDup_cons in Hnd as [Hnotin Hnd].
  apply elem_of_cons in H1 as [-> | H1]; apply elem_of_cons in H2 as [-> | H2].
  - reflexivity.
  - exfalso. apply Hnotin. apply list_elem_of_fmap. exists tm2. auto.
  - exfalso. apply Hnotin. apply list_elem_of_fmap. exists tm1. auto.
  - apply IH; assumption.
Qed.

(** Once the handle in [timeoutHandle] is cleared, no poll is pending. *)
Lemma cleared_has_no_poll (w : World) (tm : timer) (t : ScrollTarget) :
  timers_ok w -> tm ∈ timers (clearTimeout (timeoutHandle w) w) -> cb tm ≠ CbPoll t.
Proof.
  intros (_ & _ & Hpoll) Hin Hcb. rewrite clearTimeout_timers in Hin.
  destruct (timeoutHandle w) as [h|] eqn:Hh.
  - apply list_elem_of_filter in Hin as [Hne Hin].
    specialize (Hpoll tm t Hin Hcb). congruence.
  - specialize (Hpoll tm t Hin Hcb). discriminate.
Qed.

Lemma cleared_subset (h : option nat) (w : World) (tm : timer) :
  tm ∈ timers (clearTimeout h w) -> tm ∈ timers w.
Proof.
  rewrite clearTimeout_timers. destruct h; [| auto].
  apply filter_handles_subset.
Qed.

Lemma cleared_NoDup (h : option nat) (w : World) :
  NoDup (handle <$> timers w) -> NoDup (handle <$> timers (clearTimeout h w)).
Proof.
  rewrite clearTimeout_timers. destruct h; [| auto].
  apply NoDup_handles_filter.
Qed.

(** ** Invariants of the timer list *)

Lemma timers_ok_frame (w w' : World) :
  timers w' = timers w -> next_handle w' = next_handle w ->
  timeoutHandle w' = timeoutHandle w -> timers_ok w -> timers_ok w'.
Proof. unfold timers_ok. intros -> -> ->. auto. Qed.

Lemma gone_frame (h : nat) (w w' : World) :
  timers w' = timers w -> next_handle w' = next_handle w -> gone h w -> gone h w'.
Proof. unfold gone. intros -> ->. auto. Qed.

Lemma attempt_is_frame (t : ScrollTarget) (w w' : World) :
  timers w' = timers w -> attempt_is t w -> attempt_is t w'.
Proof. unfold attempt_is. intros ->. auto. Qed.

Lemma timers_ok_init (t0 : Z) (d0 : Dom) (st0 : value) (back0 : list value)
    (fault0 : call -> option string) :
  timers_ok (init t0 d0 st0 back0 fault0).
Proof.
  unfold timers_ok. simpl. split; [constructor |].
  split; intros tm; [| intros t]; intros Hin; inversion Hin.
Qed.

Lemma dequeue_timers_ok (tm : timer) (w : World) :
  timers_ok w -> timers_ok (dequeue tm w).
Proof.
  intros (Hnd & Hlt & Hpoll). unfold timers_ok, dequeue. simpl.
  split; [apply NoDup_handles_filter; exact Hnd |].
  split.
  - intros tm' Hin. apply Hlt. eapply filter_handles_subset. exact Hin.
  - intros tm' t Hin. apply Hpoll. eapply filter_handles_subset. exact Hin.
Qed.

Lemma dequeue_gone (tm : timer) (h : nat) (w : World) :
  gone h w -> gone h (dequeue tm w).
Proof.
  intros [Hnotin Hlt]. unfold gone, dequeue. simpl. split; [| exact Hlt].
  intros Hin. apply Hnotin.
  apply list_elem_of_fmap in Hin as (tm' & -> & Hin).
  apply list_elem_of_fmap. exists tm'. split; [reflexivity |].
  eapply filter_handles_subset. exact Hin.
Qed.

Section Invariants.

Variable rc : option Config.ScrollRestorationOptions.

Lemma tryToScrollTo_timers_ok (t : ScrollTarget) (w : World) :
  timers_ok w -> timers_ok (tryToScrollTo rc t w).
Proof.
  intros Hok. pose proof Hok as (Hnd & Hlt & Hpoll).
  destruct (may_scroll_dec (dom w) (scrollbar_in_use w) (now w) t) as [Hs | Hs].
  - destruct (tryToScrollTo_scrolls_fields rc t w Hs) as (Ht & _ & _ & Hn & Hh).
    unfold timers_ok. rewrite Ht, Hn, Hh.
    split; [apply cleared_NoDup; exact Hnd |].
    split.
    + intros tm Hin. apply Hlt. eapply cleared_subset. exact Hin.
    + intros tm t' Hin Hcb. exfalso.
      exact (cleared_has_no_poll w tm t' Hok Hin Hcb).
  - destruct (tryToScrollTo_reschedules_fields rc t w Hs) as (Ht & _ & _ & Hn & Hh).
    unfold timers_ok. rewrite Ht, Hn, Hh.
    split.
    { apply NoDup_handles_snoc; [apply cleared_NoDup; exact Hnd |].
      intros tm Hin. simpl. apply Hlt. eapply cleared_subset. exact Hin. }
    split.
    + intros tm Hin. apply elem_of_app in Hin as [Hin | Hin].
      * apply cleared_subset in Hin. specialize (Hlt tm Hin). lia.
      * apply list_elem_of_singleton in Hin. subst tm. simpl. lia.
    + intros tm t' Hin Hcb. apply elem_of_app in Hin as [Hin | Hin].
      * exfalso. exact (cleared_has_no_poll w tm t' Hok Hin Hcb).
      * apply list_elem_of_singleton in Hin. subst tm. reflexivity.
Qed.

(** After a step of [tryToScrollTo] for [t], a pending poll is for [t]. *)
Lemma tryToScrollTo_attempt_is (t : ScrollTarget) (w : World) :
  timers_ok w -> attempt_is t (tryToScrollTo rc t w).
Proof.
  intros Hok tm t' Hin Hcb.
  destruct (may_scroll_dec (dom w) (scrollbar_in_use w) (now w) t) as [Hs | Hs].
  - destruct (tryToScrollTo_scrolls_fields rc t w Hs) as (Ht & _).
    rewrite Ht in Hin. exfalso. exact (cleared_has_no_poll w tm t' Hok Hin Hcb).
  - destruct (tryToScrollTo_reschedules_fields rc t w Hs) as (Ht & _).
    rewrite Ht in Hin. apply elem_of_app in Hin as [Hin | Hin].
    + exfalso. exact (cleared_has_no_poll w tm t' Hok Hin Hcb).
    + apply list_elem_of_singleton in Hin. subst tm. simpl in Hcb. congruence.
Qed.

Lemma tryToScrollTo_gone (t : ScrollTarget) (h : nat) (w : World) :
  gone h w -> gone h (tryToScrollTo rc t w).
Proof.
  intros [Hnotin Hlt]. unfold gone.
  assert (Hc : h ∉ handle <$> timers (clearTimeout (timeoutHandle w) w)).
  { intros Hin. apply Hnotin.
    apply list_elem_of_fmap in Hin as (tm' & -> & Hin).
    apply list_elem_of_fmap. exists tm'. split; [reflexivity |].
    eapply cleared_subset. exact Hin. }
  destruct (may_scroll_dec (dom w) (scrollbar_in_use w) (now w) t) as [Hs | Hs].
  - destruct (tryToScrollTo_scrolls_fields rc t w Hs) as (Ht & _ & _ & Hn & _).
    rewrite Ht, Hn. auto.
  - destruct (tryToScrollTo_reschedules_fields rc t w Hs) as (Ht & _ & _ & Hn & _).
    rewrite Ht, Hn. split; [| lia].
    rewrite fmap_app. intros Hin. apply elem_of_app in Hin as [Hin | Hin]; [auto |].
    simpl in Hin. apply list_elem_of_singleton in Hin. lia.
Qed.

(** [tryToScrollTo] cancels the timer that [timeoutHandle] names. *)
Lemma tryToScrollTo_cancels (t : ScrollTarget) (h : nat) (w : World) :
  timeoutHandle w = Some h -> (h < next_handle w)%nat ->
  gone h (tryToScrollTo rc t w).
Proof.
  intros Hh Hlt. unfold gone.
  assert (Hc : h ∉ handle <$> timers (clearTimeout (timeoutHandle w) w)).
  { rewrite clearTimeout_timers, Hh. intros Hin.
    apply list_elem_of_fmap in Hin as (tm' & -> & Hin).
    apply list_elem_of_filter in Hin as [Hne _]. apply Hne. reflexivity. }
  destruct (may_scroll_dec (dom w) (scrollbar_in_use w) (now w) t) as [Hs | Hs].
  - destruct (tryToScrollTo_scrolls_fields rc t w Hs) as (Ht & _ & _ & Hn & _).
    rewrite Ht, Hn. auto.
  - destruct (tryToScrollTo_reschedules_fields rc t w Hs) as (Ht & _ & _ & Hn & _).
    rewrite Ht, Hn. split; [| lia].
    rewrite fmap_app. intros Hin. apply elem_of_app in Hin as [Hin | Hin]; [auto |].
    simpl in Hin. apply list_elem_of_singleton in Hin. lia.
Qed.

Lemma fire_timers_ok (tm : timer) (w : World) :
  timers_ok w -> timers_ok (fire rc tm w).
Proof.
  intros Hok. unfold fire, run_callback.
  destruct (cb tm); apply tryToScrollTo_timers_ok, dequeue_timers_ok, Hok.
Qed.

Lemma fire_gone (tm : timer) (h : nat) (w : World) :
  gone h w -> gone h (fire rc tm w).
Proof.
  intros Hg. unfold fire, run_callback.
  destruct (cb tm); apply tryToScrollTo_gone, dequeue_gone, Hg.
Qed.

(** What [onPageFinish] does to the timers: nothing, or one more deferred
    start with a fresh handle. *)
Lemma onPageFinish_timers (w : World) :
  timeoutHandle (onPageFinish w) = timeoutHandle w /\
  poppedState (onPageFinish w) = VNull /\
  ((timers (onPageFinish w) = timers w /\ next_handle (onPageFinish w) = next_handle w) \/
   (exists sx sy,
      timers (onPageFinish w) =
        timers w ++ [mkTimer (next_handle w) (now w) (CbBegin sx sy)] /\
      next_handle (onPageFinish w) = S (next_handle w))).
Proof.
  destruct (finite_scroll (or_else (poppedState w) (history_state w)))
    as [[sx sy]|] eqn:E.
  - rewrite (onPageFinish_defers w sx sy E). simpl.
    split; [reflexivity |]. split; [reflexivity |]. right. eauto.
  - unfold onPageFinish. rewrite E. simpl. auto.
Qed.

Lemma onPageFinish_timers_ok (w : World) :
  timers_ok w -> timers_ok (onPageFinish w).
Proof.
  intros Hok. pose proof Hok as (Hnd & Hlt & Hpoll).
  destruct (onPageFinish_timers w) as (Hh & _ & [[Ht Hn] | (sx & sy & Ht & Hn)]).
  - exact (timers_ok_frame w _ Ht Hn Hh Hok).
  - unfold timers_ok. rewrite Ht, Hn, Hh.
    split; [apply NoDup_handles_snoc; [exact Hnd | exact Hlt] |].
    split.
    + intros tm Hin. apply elem_of_app in Hin as [Hin | Hin].
      * specialize (Hlt tm Hin). lia.
      * apply list_elem_of_singleton in Hin. subst tm. simpl. lia.
    + intros tm t Hin Hcb. apply elem_of_app in Hin as [Hin | Hin].
      * exact (Hpoll tm t Hin Hcb).
      * apply list_elem_of_singleton in Hin. subst tm. discriminate Hcb.
Qed.

Lemma onPageFinish_gone (h : nat) (w : World) :
  gone h w -> gone h (onPageFinish w).
Proof.
  intros Hg. pose proof Hg as [Hnotin Hlt].
  destruct (onPageFinish_timers w) as (_ & _ & [[Ht Hn] | (sx & sy & Ht & Hn)]).
  - exact (gone_frame h w _ Ht Hn Hg).
  - unfold gone. rewrite Ht, Hn. split; [| lia].
    rewrite fmap_app. intros Hin. apply elem_of_app in Hin as [Hin | Hin]; [auto |].
    simpl in Hin. apply list_elem_of_singleton in Hin. lia.
Qed.

Lemma onPageFinish_attempt_is (t : ScrollTarget) (w : World) :
  attempt_is t w -> attempt_is t (onPageFinish w).
Proof.
  intros Ha.
  destruct (onPageFinish_timers w) as (_ & _ & [[Ht Hn] | (sx & sy & Ht & Hn)]).
  - exact (attempt_is_frame t w _ Ht Ha).
  - intros tm t' Hin Hcb. rewrite Ht in Hin.
    apply elem_of_app in Hin as [Hin | Hin]; [exact (Ha tm t' Hin Hcb) |].
    apply list_elem_of_singleton in Hin. subst tm. discriminate Hcb.
Qed.

End Invariants.

(** ** Invariants of the reactions *)

Lemma due_timer_inv (h : nat) (w : World) (tm : timer) :
  due_timer h w = Some tm -> tm ∈ timers w /\ handle tm = h /\ due tm <= now w.
Proof.
  unfold due_timer.
  destruct (List.find _ (timers w)) as [tm'|] eqn:E; [| discriminate].
  destruct (Z.leb_spec (due tm') (now w)) as [Hle | Hgt]; [| discriminate].
  intros [= <-]. apply List.find_some in E as [Hin Hh].
  split; [apply list_elem_of_In; exact Hin |].
  split; [apply Nat.eqb_eq; exact Hh | exact Hle].
Qed.

Section Reactions.

Variable rc : option Config.ScrollRestorationOptions.

(** The reactions that have nothing to do with timers. *)
Lemma step_keeps_timers (i : input) (w : World) :
  match i with PageFinish | TimerFires _ => False | _ => True end ->
  timers (step rc i w) = timers w /\
  next_handle (step rc i w) = next_handle w /\
  timeoutHandle (step rc i w) = timeoutHandle w.
Proof.
  destruct i as [| |st back| |state otherArgs|args|h|t d]; simpl; intros Hi;
    try contradiction.
  - auto.
  - unfold onPopState. destruct (finite_scroll st); auto.
  - unfold onBeforeUnload.
    destruct (replaceState_timers (history_state w) [VStr ""] w) as (? & ? & ? & _).
    auto.
  - destruct (replaceState_timers state otherArgs w) as (? & ? & ? & _). auto.
  - destruct (pushState_timers args w) as (? & ? & ? & _). auto.
  - destruct (Z.leb (now w) t); auto.
Qed.

Ltac keeps_timers w Ht Hn Hh :=
  match goal with
  | |- context [step _ ?i w] =>
      destruct (step_keeps_timers i w I) as (Ht & Hn & Hh)
  end.

Lemma step_timers_ok (i : input) (w : World) :
  timers_ok w -> timers_ok (step rc i w).
Proof.
  intros Hok.
  destruct i as [| |st back| |state otherArgs|args|h|t d];
    try (keeps_timers w Ht Hn Hh; exact (timers_ok_frame w _ Ht Hn Hh Hok)).
  - apply onPageFinish_timers_ok, Hok.
  - simpl. destruct (due_timer h w); [apply fire_timers_ok, Hok | exact Hok].
Qed.

Lemma step_gone (i : input) (h : nat) (w : World) :
  gone h w -> gone h (step rc i w).
Proof.
  intros Hg.
  destruct i as [| |st back| |state otherArgs|args|h'|t d];
    try (keeps_timers w Ht Hn Hh; exact (gone_frame h w _ Ht Hn Hg)).
  - apply onPageFinish_gone, Hg.
  - simpl. destruct (due_timer h' w); [apply fire_gone, Hg | exact Hg].
Qed.

Lemma exec_timers_ok (ins : list input) (w : World) :
  timers_ok w -> timers_ok (exec rc ins w).
Proof.
  revert w. induction ins as [|i r IH]; intros w Hok; [exact Hok |].
  simpl. apply IH, step_timers_ok, Hok.
Qed.

Lemma exec_gone (ins : list input) (h : nat) (w : World) :
  gone h w -> gone h (exec rc ins w).
Proof.
  revert w. induction ins as [|i r IH]; intros w Hg; [exact Hg |].
  simpl. apply IH, step_gone, Hg.
Qed.

(** As long as no new attempt starts, the pending poll stays with the
    same target. *)
Lemma step_attempt_is (t : ScrollTarget) (i : input) (w : World) :
  timers_ok w -> attempt_is t w -> starts_attempt i w = false ->
  attempt_is t (step rc i w).
Proof.
  intros Hok Ha Hns.
  destruct i as [| |st back| |state otherArgs|args|h|time d];
    try (keeps_timers w Ht Hn Hh; exact (attempt_is_frame t w _ Ht Ha)).
  - apply onPageFinish_attempt_is, Ha.
  - simpl in *. destruct (due_timer h w) as [tm|] eqn:E; [| exact Ha].
    apply due_timer_inv in E as (Hin & _).
    unfold fire, run_callback.
    destruct (cb tm) as [sx sy | t'] eqn:Hcb; [discriminate |].
    rewrite (Ha tm t' Hin Hcb).
    apply tryToScrollTo_attempt_is, dequeue_timers_ok, Hok.
Qed.

Lemma exec_same_attempt_inv (t : ScrollTarget) (ins : list input) (w w' : World) :
  timers_ok w -> attempt_is t w -> exec_same_attempt rc ins w = Some w' ->
  timers_ok w' /\ attempt_is t w'.
Proof.
  revert w. induction ins as [|i r IH]; intros w Hok Ha; simpl.
  - intros [= <-]. auto.
  - destruct (starts_attempt i w) eqn:Hs; [discriminate |].
    apply IH; [apply step_timers_ok, Hok | apply step_attempt_is; assumption].
Qed.

(** A poll of the attempt for [t] either makes no call or calls
    [scrollTo(t.x, t.y)]. *)
Lemma poll_calls (t : ScrollTarget) (h : nat) (w : World) :
  attempt_is t w -> starts_attempt (TimerFires h) w = false ->
  calls (step rc (TimerFires h) w) = calls w \/
  calls (step rc (TimerFires h) w) = calls w ++ [(now w, ScrollTo (x t) (y t))].
Proof.
  intros Ha Hns. simpl in *.
  destruct (due_timer h w) as [tm|] eqn:E; [| auto].
  apply due_timer_inv in E as (Hin & _).
  unfold fire, run_callback.
  destruct (cb tm) as [sx sy | t'] eqn:Hcb; [discriminate |].
  rewrite (Ha tm t' Hin Hcb).
  destruct (may_scroll_dec (dom (dequeue tm w)) (scrollbar_in_use (dequeue tm w))
              (now (dequeue tm w)) t) as [Hs | Hs].
  - destruct (tryToScrollTo_scrolls_fields rc t _ Hs) as (_ & Hc & _).
    right. rewrite Hc. reflexivity.
  - destruct (tryToScrollTo_reschedules_fields rc t _ Hs) as (_ & Hc & _).
    left. rewrite Hc. reflexivity.
Qed.

End Reactions.

(** ** One attempt at a time *)

Lemma due_timer_gone (h : nat) (w : World) : gone h w -> due_timer h w = None.
Proof.
  intros [Hnotin _]. destruct (due_timer h w) as [tm|] eqn:E; [| reflexivity].
  apply due_timer_inv in E as (Hin & Hh & _). exfalso. apply Hnotin.
  apply list_elem_of_fmap. exists tm. auto.
Qed.

(** C7. An attempt starts when the closure deferred by [onPageFinish] runs.
    In every state the plugin can reach, at most one poll is pending; when
    an attempt for (sx, sy) starts, the poll that an earlier attempt left
    pending is cancelled and can never fire again; and from then on, until
    another attempt starts, any pending poll is for the new target and each
    firing of a timer either makes no call or calls [scrollTo(sx, sy)]. *)
Theorem only_latest_attempt_scrolls
    (rc : option Config.ScrollRestorationOptions)
    (t0 : Z) (d0 : Dom) (st0 : value) (back0 : list value)
    (fault0 : call -> option string) (ins0 : list input)
    (h2 : nat) (tm2 : timer) (sx sy : Z) :
  let w := exec rc ins0 (init t0 d0 st0 back0 fault0) in
  due_timer h2 w = Some tm2 ->
  cb tm2 = CbBegin sx sy ->
  let w' := step rc (TimerFires h2) w in
  let t2 := mkTarget sx sy (now w + Config.SCROLL_RESTORATION_TIMEOUT_MS rc) in
  (forall tm tm' t t',
     tm ∈ timers w -> tm' ∈ timers w -> cb tm = CbPoll t -> cb tm' = CbPoll t' ->
     tm = tm') /\
  (forall tm t1 later,
     tm ∈ timers w -> cb tm = CbPoll t1 ->
     gone (handle tm) (exec rc later w') /\
     step rc (TimerFires (handle tm)) (exec rc later w') = exec rc later w') /\
  (forall ins w'',
     exec_same_attempt rc ins w' = Some w'' ->
     attempt_is t2 w'' /\
     forall h, starts_attempt (TimerFires h) w'' = false ->
       calls (step rc (TimerFires h) w'') = calls w'' \/
       calls (step rc (TimerFires h) w'') = calls w'' ++ [(now w'', ScrollTo sx sy)]).
Proof.
  intros w Hdue Hcb w' t2.
  assert (Hok : timers_ok w) by apply exec_timers_ok, timers_ok_init.
  assert (Hw' : w' = tryToScrollTo rc t2 (dequeue tm2 w)).
  { subst w'. simpl. rewrite Hdue. unfold fire. rewrite Hcb. reflexivity. }
  pose proof (dequeue_timers_ok tm2 w Hok) as Hokd.
  split; [| split].
  - intros tm tm' t t' Hin Hin' Ht Ht'.
    destruct Hok as (Hnd & _ & Hpoll).
    apply (same_handle_same_timer (timers w)); try assumption.
    pose proof (Hpoll tm t Hin Ht) as H1. pose proof (Hpoll tm' t' Hin' Ht') as H2.
    congruence.
  - intros tm t1 later Hin Ht.
    assert (Hg : gone (handle tm) (exec rc later w')).
    { apply exec_gone. rewrite Hw'.
      destruct Hok as (_ & Hlt & Hpoll).
      apply tryToScrollTo_cancels; [exact (Hpoll tm t1 Hin Ht) | exact (Hlt tm Hin)]. }
    split; [exact Hg |]. simpl. rewrite (due_timer_gone _ _ Hg). reflexivity.
  - intros ins w'' Hex.
    destruct (exec_same_attempt_inv rc t2 ins w' w'') as [Hok'' Ha''];
      [rewrite Hw'; apply tryToScrollTo_timers_ok, Hokd
      |rewrite Hw'; apply tryToScrollTo_attempt_is, Hokd
      |exact Hex |].
    split; [exact Ha'' |].
    intros h Hns. exact (poll_calls rc t2 h w'' Ha'' Hns).
Qed.

(** The second attempt, for (0, 2000), starts while the first one, for
    (0, 5000), waits on timer 2. Timer 2 never fires; 400 ms later the poll
    of the second attempt scrolls to (0, 2000). *)
Lemma only_latest_attempt_scrolls_witness :
  let w' := step Sample.quick (TimerFires 3) Sample.second_pending in
  let later := [Environment 400 (Sample.short 400); TimerFires 2] in
  timers Sample.second_pending =
    [mkTimer 2 50 (CbPoll (mkTarget 0 5000 300)); mkTimer 3 0 (CbBegin 0 2000)] /\
  gone 2 (exec Sample.quick later w') /\
  (calls (step Sample.quick (TimerFires 4) (exec Sample.quick later w')) = [] \/
   calls (step Sample.quick (TimerFires 4) (exec Sample.quick later w')) =
     [(400, ScrollTo 0 2000)]) /\
  calls (step Sample.quick (TimerFires 4) (exec Sample.quick later w')) =
    [(400, ScrollTo 0 2000)].
Proof.
  intros w' later.
  pose proof (only_latest_attempt_scrolls Sample.quick 0 (Sample.short 0)
              (Sample.stored 0 5000) [] Sample.no_fault
              [PageFinish; TimerFires 1; Traverse (Sample.stored 0 2000) []; PageFinish]
              3 (mkTimer 3 0 (CbBegin 0 2000)) 0 2000 eq_refl eq_refl) as H.
  destruct H as (_ & Hgone & Hsame).
  split; [vm_compute; reflexivity |].
  split.
  - apply (Hgone (mkTimer 2 50 (CbPoll (mkTarget 0 5000 300))) (mkTarget 0 5000 300) later).
    + apply list_elem_of_In; vm_compute; left; reflexivity.
    + reflexivity.
  - split; [| vm_compute; reflexivity].
    assert (Hex : exec_same_attempt Sample.quick later w' = Some (exec Sample.quick later w'))
      by (vm_compute; reflexivity).
    destruct (Hsame later (exec Sample.quick later w') Hex) as [_ Hcalls].
    assert (Hns : starts_attempt (TimerFires 4) (exec Sample.quick later w') = false)
      by (vm_compute; reflexivity).
    exact (Hcalls 4%nat Hns).
Defined.

(** ** The popped state *)

(** The state of the holder [poppedState]: empty, or a state with a finite
    position. *)
Lemma poppedState_frame (w w' : World) :
  poppedState w' = poppedState w ->
  poppedState w = VNull \/ is_Some (finite_scroll (poppedState w)) ->
  poppedState w' = VNull \/ is_Some (finite_scroll (poppedState w')).
Proof. intros ->. auto. Qed.

Lemma tryToScrollTo_poppedState
    (rc : option Config.ScrollRestorationOptions) (t : ScrollTarget) (w : World) :
  poppedState (tryToScrollTo rc t w) = poppedState w.
Proof.
  destruct (may_scroll_dec (dom w) (scrollbar_in_use w) (now w) t) as [Hs | Hs].
  - rewrite (tryToScrollTo_scrolls rc t w Hs).
    destruct w as [? ? ? ? ? ? ? ? ? ? [h|] ?]; reflexivity.
  - rewrite (tryToScrollTo_reschedules rc t w Hs).
    destruct w as [? ? ? ? ? ? ? ? ? ? [h|] ?]; reflexivity.
Qed.

Lemma step_poppedState
    (rc : option Config.ScrollRestorationOptions) (i : input) (w : World) :
  poppedState w = VNull \/ is_Some (finite_scroll (poppedState w)) ->
  poppedState (step rc i w) = VNull \/
  is_Some (finite_scroll (poppedState (step rc i w))).
Proof.
  intros Hp.
  destruct i as [| |st back| |state otherArgs|args|h|t d]; simpl.
  - exact Hp.
  - left. apply onPageFinish_timers.
  - unfold onPopState. destruct (finite_scroll st) eqn:E; simpl; [| exact Hp].
    right. rewrite E. eauto.
  - unfold onBeforeUnload.
    destruct (replaceState_timers (history_state w) [VStr ""] w) as (_ & _ & _ & H).
    exact (poppedState_frame w _ H Hp).
  - destruct (replaceState_timers state otherArgs w) as (_ & _ & _ & H).
    exact (poppedState_frame w _ H Hp).
  - destruct (pushState_timers args w) as (_ & _ & _ & H).
    exact (poppedState_frame w _ H Hp).
  - destruct (due_timer h w) as [tm|]; [| exact Hp].
    apply (poppedState_frame w); [| exact Hp].
    unfold fire, run_callback.
    destruct (cb tm); rewrite tryToScrollTo_poppedState; reflexivity.
  - destruct (Z.leb (now w) t); exact Hp.
Qed.

Lemma exec_poppedState
    (rc : option Config.ScrollRestorationOptions) (ins : list input) (w : World) :
  poppedState w = VNull \/ is_Some (finite_scroll (poppedState w)) ->
  poppedState (exec rc ins w) = VNull \/
  is_Some (finite_scroll (poppedState (exec rc ins w))).
Proof.
  revert w. induction ins as [|i r IH]; intros w Hp; [exact Hp |].
  simpl. apply IH, step_poppedState, Hp.
Qed.

(** C5. In every state the plugin can reach, a popped state that is set
    holds a finite position, and at the next navigation-finished trigger it
    is the one that is restored, whatever the current history entry holds:
    the start that is deferred is for the popped position, the attempt's
    first step works on exactly these coordinates, and [poppedState] is
    [null] afterwards. *)
Theorem onPageFinish_prefers_popped_state
    (rc : option Config.ScrollRestorationOptions)
    (t0 : Z) (d0 : Dom) (st0 : value) (back0 : list value)
    (fault0 : call -> option string) (ins : list input) :
  let w := exec rc ins (init t0 d0 st0 back0 fault0) in
  poppedState w ≠ VNull ->
  exists px py,
    get_prop (poppedState w) "__scrollX" = Some (VNum (Fin px)) /\
    get_prop (poppedState w) "__scrollY" = Some (VNum (Fin py)) /\
    poppedState (onPageFinish w) = VNull /\
    timers (onPageFinish w) =
      timers w ++ [mkTimer (next_handle w) (now w) (CbBegin px py)] /\
    calls (onPageFinish w) = calls w /\
    forall w', run_callback rc (CbBegin px py) w' =
      tryToScrollTo rc
        (mkTarget px py (now w' + Config.SCROLL_RESTORATION_TIMEOUT_MS rc)) w'.
Proof.
  intros w Hset.
  destruct (exec_poppedState rc ins (init t0 d0 st0 back0 fault0)) as [Hn | [[px py] Hp]];
    [left; reflexivity | contradiction |].
  fold w in Hp. exists px, py.
  destruct (onPageFinish_restores_popped w px py Hp) as (H1 & H2 & H3).
  apply finite_scroll_Some in Hp as (_ & Hx & Hy).
  repeat split; assumption || reflexivity.
Qed.

(** The back navigation brought (10, 20); the router then overwrote the
    current entry while the page stood at (99, 99), so that this entry
    holds (99, 99): the attempt that follows scrolls to (10, 20). *)
Lemma onPageFinish_prefers_popped_state_witness :
  let w := exec None Sample.popped_then_stamped
             (init 0 (Sample.growing 0) VNull [] Sample.no_fault) in
  poppedState w = Sample.stored 10 20 /\
  history_state w = Sample.stored 99 99 /\
  poppedState (onPageFinish w) = VNull /\
  (exists px py, timers (onPageFinish w) = [mkTimer 1 0 (CbBegin px py)] /\
                 get_prop (Sample.stored 10 20) "__scrollX" = Some (VNum (Fin px)) /\
                 get_prop (Sample.stored 10 20) "__scrollY" = Some (VNum (Fin py))) /\
  calls (run None Sample.growing 1 (onPageFinish w)) =
    [(0, OriginalReplaceState (Sample.stored 99 99) [VStr ""]); (0, ScrollTo 10 20)].
Proof.
  intros w.
  assert (Hset : poppedState w ≠ VNull) by (vm_compute; discriminate).
  destruct (onPageFinish_prefers_popped_state None 0 (Sample.growing 0) VNull []
              Sample.no_fault
              Sample.popped_then_stamped
              Hset)
    as (px & py & Hx & Hy & Hn & Ht & _).
  split; [vm_compute; reflexivity |]. split; [vm_compute; reflexivity |].
  split; [exact Hn |].
  split; [exists px, py; split; [exact Ht |]; split; [exact Hx | exact Hy] |].
  vm_compute; reflexivity.
Defined.

(** ** Further properties of the plugin *)

(** What a step of [tryToScrollTo] leaves alone. *)
Lemma tryToScrollTo_keeps
    (rc : option Config.ScrollRestorationOptions) (t : ScrollTarget) (w : World) :
  isMounted (tryToScrollTo rc t w) = isMounted w /\
  history_state (tryToScrollTo rc t w) = history_state w /\
  history_back (tryToScrollTo rc t w) = history_back w /\
  dom (tryToScrollTo rc t w) = dom w /\
  scrollBarWidth (tryToScrollTo rc t w) = scrollbar_in_use w.
Proof.
  destruct (may_scroll_dec (dom w) (scrollbar_in_use w) (now w) t) as [Hs | Hs].
  - rewrite (tryToScrollTo_scrolls rc t w Hs).
    destruct w as [? ? ? ? ? ? ? ? ? ? [h|] ?]; repeat split; reflexivity.
  - rewrite (tryToScrollTo_reschedules rc t w Hs).
    destruct w as [? ? ? ? ? ? ? ? ? ? [h|] ?]; repeat split; reflexivity.
Qed.

Lemma fire_keeps
    (rc : option Config.ScrollRestorationOptions) (tm : timer) (w : World) :
  isMounted (fire rc tm w) = isMounted w /\
  history_state (fire rc tm w) = history_state w /\
  history_back (fire rc tm w) = history_back w /\
  dom (fire rc tm w) = dom w /\
  scrollBarWidth (fire rc tm w) = scrollbar_in_use w.
Proof.
  unfold fire, run_callback.
  destruct (cb tm);
    match goal with
    | |- context [tryToScrollTo rc ?t (dequeue tm w)] =>
        destruct (tryToScrollTo_keeps rc t (dequeue tm w)) as (-> & -> & -> & -> & ->)
    end; repeat split; reflexivity.
Qed.

Lemma replaceState_keeps_plugin_state (state : value) (otherArgs : list value) (w : World) :
  isMounted (world_of (replaceState state otherArgs w)) = isMounted w /\
  scrollBarWidth (world_of (replaceState state otherArgs w)) = scrollBarWidth w /\
  dom (world_of (replaceState state otherArgs w)) = dom w /\
  now (world_of (replaceState state otherArgs w)) = now w.
Proof.
  destruct (replaceState_cases state otherArgs w) as [(sx & sy & -> & _) | (_ & _ & ->)].
  - unfold originalReplaceState. destruct (native_fault w _); repeat split; reflexivity.
  - repeat split; reflexivity.
Qed.

Lemma pushState_keeps_plugin_state (args : list value) (w : World) :
  isMounted (world_of (pushState args w)) = isMounted w /\
  scrollBarWidth (world_of (pushState args w)) = scrollBarWidth w /\
  dom (world_of (pushState args w)) = dom w /\
  now (world_of (pushState args w)) = now w.
Proof.
  unfold pushState, bind.
  destruct (replaceState_cases (history_state w) [VStr ""] w)
    as [(sx & sy & -> & _) | (_ & _ & ->)]; [| repeat split; reflexivity].
  unfold originalReplaceState, originalPushState. simpl.
  destruct (native_fault w (OriginalReplaceState _ _)); simpl;
    [repeat split; reflexivity |].
  destruct (native_fault w (OriginalPushState args)); repeat split; reflexivity.
Qed.

Lemma onPageFinish_keeps (w : World) :
  isMounted (onPageFinish w) = isMounted w /\
  history_state (onPageFinish w) = history_state w /\
  scrollBarWidth (onPageFinish w) = scrollBarWidth w.
Proof.
  unfold onPageFinish.
  destruct (finite_scroll _) as [[sx sy]|]; repeat split; reflexivity.
Qed.

(** X1. Back/forward navigations only stage a position: however many of
    them arrive in a row, no call leaves the plugin and no timer is set, and
    the popped state is the state of the last navigation that held a finite
    position; navigations without one leave an earlier staged state in
    place. *)
Theorem popstate_only_stages_latest_position
    (rc : option Config.ScrollRestorationOptions)
    (sts : list (value * list value)) (w : World) :
  calls (exec rc (traversals sts) w) = calls w /\
  timers (exec rc (traversals sts) w) = timers w /\
  timeoutHandle (exec rc (traversals sts) w) = timeoutHandle w /\
  poppedState (exec rc (traversals sts) w) = last_staged sts (poppedState w).
Proof.
  revert w. induction sts as [|[st back] r IH]; intros w; [repeat split; reflexivity |].
  simpl. destruct (IH (onPopState st (set_history st back w))) as (Hc & Ht & Hh & Hp).
  unfold traversals in *. rewrite Hc, Ht, Hh, Hp.
  unfold onPopState, last_staged. simpl.
  destruct (finite_scroll st); repeat split; reflexivity.
Qed.

(** X2. A navigation to an entry without a position does not clear what an
    earlier one staged: the next navigation-finished trigger restores the
    staged position, although the entry that is now current has none. *)
Theorem stale_popped_state_is_still_restored
    (rc : option Config.ScrollRestorationOptions)
    (w : World) (a b : Z) (st : value) (back : list value) :
  finite_scroll (poppedState w) = Some (a, b) ->
  finite_scroll st = None ->
  let w1 := exec rc [Traverse st back; PageFinish] w in
  history_state w1 = st /\
  timers w1 = timers w ++ [mkTimer (next_handle w) (now w) (CbBegin a b)] /\
  calls w1 = calls w /\
  poppedState w1 = VNull.
Proof.
  intros Hp Hst. simpl. unfold onPopState. rewrite Hst.
  destruct (onPageFinish_restores_popped (set_history st back w) a b Hp)
    as (Hn & Ht & Hc).
  destruct (onPageFinish_keeps (set_history st back w)) as (_ & Hh & _).
  rewrite Hn, Ht, Hc, Hh. repeat split; reflexivity.
Qed.

(** A position (10, 20) is staged, then the user lands on an entry that
    holds only the router's fields. *)
Lemma stale_popped_state_is_still_restored_witness :
  let w := onPopState (Sample.stored 10 20)
             (Sample.fresh (Sample.growing 0) (Sample.stored 10 20)) in
  timers (exec None [Traverse Sample.router_state []; PageFinish] w) =
    [mkTimer 1 0 (CbBegin 10 20)] /\
  history_state (exec None [Traverse Sample.router_state []; PageFinish] w) =
    Sample.router_state.
Proof.
  intros w.
  destruct (stale_popped_state_is_still_restored None w 10 20 Sample.router_state [])
    as (Hh & Ht & _); [vm_compute; reflexivity | vm_compute; reflexivity |].
  split; [exact Ht | exact Hh].
Defined.

Lemma step_isMounted
    (rc : option Config.ScrollRestorationOptions) (i : input) (w : World) :
  isMounted (step rc i w) = isMounted w || is_app_mounted i.
Proof.
  destruct i as [| |st back| |state otherArgs|args|h|t d]; simpl;
    rewrite ?orb_false_r, ?orb_true_r.
  - reflexivity.
  - apply onPageFinish_keeps.
  - unfold onPopState. destruct (finite_scroll st); reflexivity.
  - unfold onBeforeUnload. apply replaceState_keeps_plugin_state.
  - apply replaceState_keeps_plugin_state.
  - apply pushState_keeps_plugin_state.
  - destruct (due_timer h w); [apply fire_keeps | reflexivity].
  - destruct (Z.leb (now w) t); reflexivity.
Qed.

(** X3. The mounted flag is set by the ["app:mounted"] hook and by nothing
    else, and nothing resets it: after any run of inputs it is true exactly
    when it was true before or the hook is among the inputs. *)
Theorem isMounted_iff_hook_has_run
    (rc : option Config.ScrollRestorationOptions) (ins : list input) (w : World) :
  isMounted (exec rc ins w) = isMounted w || existsb is_app_mounted ins.
Proof.
  revert w. induction ins as [|i r IH]; intros w.
  - simpl. rewrite orb_false_r. reflexivity.
  - change (exec rc (i :: r) w) with (exec rc r (step rc i w)).
    rewrite IH, step_isMounted. simpl. rewrite orb_assoc. reflexivity.
Qed.

(** ** Stamping and restoring *)

Lemma assign_scroll_idem (S sx sy : value) :
  assign_scroll (assign_scroll S sx sy) sx sy = assign_scroll S sx sy.
Proof.
  unfold assign_scroll. simpl. f_equal. apply map_eq. intros k.
  destruct (decide (k = "__scrollY")) as [-> | Hy];
    [rewrite !lookup_insert_eq; reflexivity |].
  destruct (decide (k = "__scrollX")) as [-> | Hx].
  - rewrite lookup_insert_ne by discriminate. rewrite lookup_insert_eq.
    rewrite lookup_insert_ne by discriminate. rewrite lookup_insert_eq.
    reflexivity.
  - repeat (rewrite lookup_insert_ne by congruence). reflexivity.
Qed.

(** Reading back what was stamped. *)
Lemma finite_scroll_assign (S sx sy : value) :
  finite_scroll (assign_scroll S sx sy) =
  match sx, sy with
  | VNum (Fin a), VNum (Fin b) => Some (a, b)
  | _, _ => None
  end.
Proof.
  unfold finite_scroll. rewrite assign_scroll_X, assign_scroll_Y. simpl.
  destruct sx as [| | |[]| |]; try reflexivity.
Qed.

(** The position fields read from an entry decide its restorable position. *)
Lemma finite_scroll_of_fields (hs sx sy : value) :
  get_prop hs "__scrollX" = Some sx -> get_prop hs "__scrollY" = Some sy ->
  finite_scroll hs =
  match sx, sy with
  | VNum (Fin a), VNum (Fin b) => Some (a, b)
  | _, _ => None
  end.
Proof.
  intros Hx Hy. unfold finite_scroll. rewrite Hx, Hy.
  destruct (truthy hs) eqn:Ht; [destruct sx as [| | |[]| |]; reflexivity |].
  destruct hs as [| |[]|[z| | |]|s|m]; try discriminate; simpl in Hx, Hy;
    try (injection Hx as <-; reflexivity).
  destruct s; [| discriminate]. simpl in Hx. injection Hx as <-. reflexivity.
Qed.

Lemma originalReplaceState_ok (newState : value) (otherArgs : list value) (w : World) :
  native_fault w (OriginalReplaceState newState otherArgs) = None ->
  originalReplaceState newState otherArgs w =
  Returned tt (set_history newState (history_back w)
                 (log_call (OriginalReplaceState newState otherArgs) w)).
Proof. intros H. unfold originalReplaceState. rewrite H. reflexivity. Qed.

(** X4. On a mounted page the wrapped [replaceState] stamps the live
    offsets, whatever position the caller's state carries, and stamping is
    idempotent: called again with the state now in the entry and the
    viewport unchanged, it hands the native primitive the very same state. *)
Theorem mounted_stamping_is_idempotent
    (S : value) (otherArgs : list value) (w : World) :
  isMounted w = true ->
  (forall st, native_fault w (OriginalReplaceState st otherArgs) = None) ->
  let stamped :=
    assign_scroll S (VNum (Fin (scrollX (dom w)))) (VNum (Fin (scrollY (dom w)))) in
  let w1 := world_of (replaceState S otherArgs w) in
  let w2 := world_of (replaceState (history_state w1) otherArgs w1) in
  finite_scroll stamped = Some (scrollX (dom w), scrollY (dom w)) /\
  history_state w1 = stamped /\
  history_state w2 = stamped /\
  calls w2 = calls w ++ [(now w, OriginalReplaceState stamped otherArgs);
                         (now w, OriginalReplaceState stamped otherArgs)].
Proof.
  intros Hm Hf stamped w1 w2.
  assert (E1 : w1 = set_history stamped (history_back w)
                      (log_call (OriginalReplaceState stamped otherArgs) w)).
  { subst w1. rewrite (replaceState_mounted S otherArgs w Hm).
    rewrite originalReplaceState_ok by apply Hf. reflexivity. }
  assert (E2 : w2 = set_history stamped (history_back w1)
                      (log_call (OriginalReplaceState stamped otherArgs) w1)).
  { subst w2. rewrite (replaceState_mounted _ otherArgs w1) by (rewrite E1; exact Hm).
    replace (history_state w1) with stamped by (rewrite E1; reflexivity).
    replace (dom w1) with (dom w) by (rewrite E1; reflexivity).
    unfold stamped. rewrite (assign_scroll_idem S).
    rewrite originalReplaceState_ok by (rewrite E1; apply Hf). reflexivity. }
  split; [apply finite_scroll_assign |].
  split; [rewrite E1; reflexivity |].
  split; [rewrite E2; reflexivity |].
  rewrite E2, E1. simpl. rewrite <- app_assoc. reflexivity.
Qed.

(** The caller passes a state that claims the position (5, 5) while the
    page stands at (0, 700). *)
Lemma mounted_stamping_is_idempotent_witness :
  let w := onMounted (Sample.fresh (Sample.scrolled 0 700 (Sample.growing 400))
                        Sample.router_state) in
  let w1 := world_of (replaceState (Sample.stored 5 5) [VStr ""] w) in
  history_state w1 = Sample.stored 0 700 /\
  history_state (world_of (replaceState (history_state w1) [VStr ""] w1)) =
    Sample.stored 0 700.
Proof.
  intros w w1.
  destruct (mounted_stamping_is_idempotent (Sample.stored 5 5) [VStr ""] w)
    as (_ & H1 & H2 & _); [reflexivity | reflexivity |].
  split; (etransitivity; [first [exact H1 | exact H2] | vm_compute; reflexivity]).
Defined.

(** Before mounting, what can be restored from the entry is what could be
    restored from it before the call. *)
Lemma replaceState_unmounted_position
    (S : value) (otherArgs : list value) (w : World) :
  isMounted w = false ->
  history_state w ≠ VNull -> history_state w ≠ VUndefined ->
  (forall st, native_fault w (OriginalReplaceState st otherArgs) = None) ->
  finite_scroll (history_state (world_of (replaceState S otherArgs w))) =
    finite_scroll (history_state w) /\
  timers (world_of (replaceState S otherArgs w)) = timers w /\
  next_handle (world_of (replaceState S otherArgs w)) = next_handle w /\
  poppedState (world_of (replaceState S otherArgs w)) = poppedState w /\
  now (world_of (replaceState S otherArgs w)) = now w.
Proof.
  intros Hm Hn Hu Hf.
  destruct (get_prop (history_state w) "__scrollX") as [sx|] eqn:Hx;
    [| apply get_prop_None in Hx; tauto].
  destruct (get_prop (history_state w) "__scrollY") as [sy|] eqn:Hy;
    [| apply get_prop_None in Hy; tauto].
  rewrite (replaceState_unmounted S otherArgs w sx sy Hm Hx Hy).
  rewrite originalReplaceState_ok by apply Hf. simpl.
  rewrite finite_scroll_assign.
  split; [symmetry; apply finite_scroll_of_fields; assumption |].
  repeat split; reflexivity.
Qed.

(** X6. Before the application is mounted, the wrapped [replaceState]
    leaves the restorable position of the current entry as it is, whatever
    state the caller passes: an entry that held a finite position still
    holds it, and an entry that held none still holds none, even when the
    caller's state carries one. *)
Theorem unmounted_replaceState_keeps_entry_position
    (S : value) (otherArgs : list value) (w : World) :
  isMounted w = false ->
  history_state w ≠ VNull -> history_state w ≠ VUndefined ->
  (forall st, native_fault w (OriginalReplaceState st otherArgs) = None) ->
  finite_scroll (history_state (world_of (replaceState S otherArgs w))) =
  finite_scroll (history_state w).
Proof.
  intros Hm Hn Hu Hf.
  apply (replaceState_unmounted_position S otherArgs w Hm Hn Hu Hf).
Qed.

(** The entry holds only the router's fields and the caller passes a state
    with the position (5, 5): the entry still has no position afterwards. *)
Lemma unmounted_replaceState_keeps_entry_position_witness :
  finite_scroll (Sample.stored 5 5) = Some (5, 5) /\
  finite_scroll
    (history_state
       (world_of (replaceState (Sample.stored 5 5) [VStr ""]
                    (Sample.fresh (Sample.growing 0) Sample.router_state)))) = None.
Proof.
  split; [vm_compute; reflexivity |].
  rewrite (unmounted_replaceState_keeps_entry_position (Sample.stored 5 5) [VStr ""]
             (Sample.fresh (Sample.growing 0) Sample.router_state));
    try reflexivity; try discriminate.
Defined.

(** X5. A reload keeps the place. On a mounted page, the ["beforeunload"]
    listener stamps the live offsets into the current entry and keeps its
    other fields; a plugin that starts afresh on that entry defers, at the
    navigation-finished trigger, an attempt for exactly these offsets, also
    when the router has overwritten the entry's state before mounting. *)
Theorem beforeunload_then_reload_restores
    (w : World) (t : Z) (d : Dom) (back : list value)
    (fault : call -> option string) (S : value) (otherArgs : list value) :
  isMounted w = true ->
  (forall st, native_fault w (OriginalReplaceState st [VStr ""]) = None) ->
  (forall st, fault (OriginalReplaceState st otherArgs) = None) ->
  let w1 := world_of (onBeforeUnload w) in
  let reloaded := init t d (history_state w1) back fault in
  let start := mkTimer 1 t (CbBegin (scrollX (dom w)) (scrollY (dom w))) in
  (forall k, k ≠ "__scrollX" -> k ≠ "__scrollY" ->
     own_props (history_state w1) !! k = own_props (history_state w) !! k) /\
  timers (onPageFinish reloaded) = [start] /\
  timers (onPageFinish (world_of (replaceState S otherArgs reloaded))) = [start].
Proof.
  intros Hm Hf Hf' w1 reloaded start.
  set (stamped := assign_scroll (history_state w)
                    (VNum (Fin (scrollX (dom w)))) (VNum (Fin (scrollY (dom w))))).
  assert (E1 : history_state w1 = stamped).
  { subst w1. unfold onBeforeUnload.
    rewrite (replaceState_mounted _ [VStr ""] w Hm).
    rewrite originalReplaceState_ok by apply Hf. reflexivity. }
  assert (Hpos : finite_scroll (history_state reloaded)
                 = Some (scrollX (dom w), scrollY (dom w))).
  { simpl. rewrite E1. apply finite_scroll_assign. }
  split; [intros k Hx Hy; rewrite E1; apply assign_scroll_other; assumption |].
  split.
  - rewrite (onPageFinish_defers reloaded _ _ Hpos). reflexivity.
  - destruct (replaceState_unmounted_position S otherArgs reloaded)
      as (Hp & Ht & Hn & Hpop & Hnow);
      [reflexivity | simpl; rewrite E1; discriminate
      | simpl; rewrite E1; discriminate | exact Hf' |].
    rewrite (onPageFinish_defers _ (scrollX (dom w)) (scrollY (dom w))).
    + simpl. rewrite Ht, Hn, Hnow. reflexivity.
    + rewrite Hpop. simpl. unfold or_else. simpl. rewrite Hp. exact Hpos.
Qed.

(** The page stands at (0, 700) when it is unloaded; after the reload the
    router replaces the state with an empty one before mounting. *)
Lemma beforeunload_then_reload_restores_witness :
  let w := onMounted (Sample.fresh (Sample.scrolled 0 700 (Sample.growing 400))
                        Sample.router_state) in
  let reloaded :=
    init 9000 (Sample.growing 0) (history_state (world_of (onBeforeUnload w))) []
      Sample.no_fault in
  timers (onPageFinish (world_of (replaceState (VObj ∅) [VStr ""] reloaded))) =
    [mkTimer 1 9000 (CbBegin 0 700)].
Proof.
  intros w reloaded.
  destruct (beforeunload_then_reload_restores w 9000 (Sample.growing 0) []
              Sample.no_fault (VObj ∅) [VStr ""])
    as (_ & _ & H); [reflexivity | reflexivity | reflexivity |].
  exact H.
Defined.

Lemma pushState_mounted_ok (args : list value) (w : World) :
  isMounted w = true ->
  (forall c, native_fault w c = None) ->
  let stamped :=
    assign_scroll (history_state w)
      (VNum (Fin (scrollX (dom w)))) (VNum (Fin (scrollY (dom w)))) in
  pushState args w =
  Returned tt
    (set_history (default VUndefined (head args)) (stamped :: history_back w)
       (log_call (OriginalPushState args)
          (set_history stamped (history_back w)
             (log_call (OriginalReplaceState stamped [VStr ""]) w)))).
Proof.
  intros Hm Hf stamped. unfold pushState, bind.
  rewrite (replaceState_mounted _ [VStr ""] w Hm).
  rewrite originalReplaceState_ok by apply Hf.
  unfold originalPushState. simpl. rewrite Hf. reflexivity.
Qed.

(** X7. Leaving a page and coming back. On a mounted page, [pushState]
    leaves behind an entry stamped with the live offsets; the page that
    follows, whose fresh state holds no position, is scrolled to the origin
    at its navigation-finished trigger without any timer; and when the user
    goes back to the entry left behind, the next trigger defers an attempt
    for the offsets the page had when it was left. *)
Theorem push_then_back_restores
    (rc : option Config.ScrollRestorationOptions)
    (args : list value) (back' : list value) (w : World) :
  isMounted w = true ->
  poppedState w = VNull ->
  (forall c, native_fault w c = None) ->
  finite_scroll (default VUndefined (head args)) = None ->
  let stamped :=
    assign_scroll (history_state w)
      (VNum (Fin (scrollX (dom w)))) (VNum (Fin (scrollY (dom w)))) in
  let w2 := exec rc [CallPushState args; PageFinish] w in
  history_back w2 = stamped :: history_back w /\
  calls w2 = calls w ++ [(now w, OriginalReplaceState stamped [VStr ""]);
                         (now w, OriginalPushState args);
                         (now w, ScrollTo 0 0)] /\
  timers w2 = timers w /\
  timers (exec rc [Traverse stamped back'; PageFinish] w2) =
    timers w ++ [mkTimer (next_handle w) (now w)
                   (CbBegin (scrollX (dom w)) (scrollY (dom w)))].
Proof.
  intros Hm Hp Hf Hnew stamped w2.
  assert (E2 : w2 = scrollTo 0 0 (set_poppedState VNull
           (set_history (default VUndefined (head args)) (stamped :: history_back w)
              (log_call (OriginalPushState args)
                 (set_history stamped (history_back w)
                    (log_call (OriginalReplaceState stamped [VStr ""]) w)))))).
  { subst w2. simpl. rewrite (pushState_mounted_ok args w Hm Hf). simpl.
    unfold onPageFinish. simpl. rewrite Hp. unfold or_else. simpl.
    rewrite Hnew. reflexivity. }
  split; [rewrite E2; reflexivity |].
  split; [rewrite E2; simpl; rewrite <- !app_assoc; reflexivity |].
  split; [rewrite E2; reflexivity |].
  assert (Hfs : finite_scroll stamped = Some (scrollX (dom w), scrollY (dom w)))
    by apply finite_scroll_assign.
  change (exec rc [Traverse stamped back'; PageFinish] w2)
    with (onPageFinish (onPopState stamped (set_history stamped back' w2))).
  unfold onPopState. rewrite Hfs.
  destruct (onPageFinish_restores_popped
              (set_poppedState stamped (set_history stamped back' w2))
              (scrollX (dom w)) (scrollY (dom w)) Hfs) as (_ & Ht & _).
  rewrite Ht, E2. reflexivity.
Qed.

(** The page stands at (0, 700) when the router pushes an empty state. *)
Lemma push_then_back_restores_witness :
  let w := onMounted (Sample.fresh (Sample.scrolled 0 700 (Sample.growing 400))
                        Sample.router_state) in
  let w2 := exec None [CallPushState [VObj ∅; VStr ""; VStr "/next"]; PageFinish] w in
  exists stamped,
    history_back w2 = [stamped] /\
    timers (exec None [Traverse stamped []; PageFinish] w2) =
      [mkTimer 1 0 (CbBegin 0 700)].
Proof.
  intros w w2.
  destruct (push_then_back_restores None [VObj ∅; VStr ""; VStr "/next"] [] w)
    as (Hb & _ & _ & Ht); [reflexivity | reflexivity | reflexivity | reflexivity |].
  eexists. split; [exact Hb | exact Ht].
Defined.

(** ** The cached scrollbar width *)

Lemma scrollbar_in_use_cached (w : World) :
  scrollBarWidth w ≠ 0 -> scrollbar_in_use w = scrollBarWidth w.
Proof.
  intros H. unfold scrollbar_in_use.
  destruct (Z.eqb_spec (scrollBarWidth w) 0); [contradiction | reflexivity].
Qed.

Lemma step_scrollBarWidth
    (rc : option Config.ScrollRestorationOptions) (i : input) (w : World) :
  scrollBarWidth w ≠ 0 -> scrollBarWidth (step rc i w) = scrollBarWidth w.
Proof.
  intros H.
  destruct i as [| |st back| |state otherArgs|args|h|t d]; simpl.
  - reflexivity.
  - apply onPageFinish_keeps.
  - unfold onPopState. destruct (finite_scroll st); reflexivity.
  - unfold onBeforeUnload. apply replaceState_keeps_plugin_state.
  - apply replaceState_keeps_plugin_state.
  - apply pushState_keeps_plugin_state.
  - destruct (due_timer h w) as [tm|]; [| reflexivity].
    destruct (fire_keeps rc tm w) as (_ & _ & _ & _ & ->).
    apply scrollbar_in_use_cached, H.
  - destruct (Z.leb (now w) t); reflexivity.
Qed.

(** X8. The scrollbar width is measured lazily and kept: once
    [scrollBarWidth] holds a non-zero width, no reaction of the plugin
    changes it again, whatever the probe would measure later; while it holds
    0, a step of [tryToScrollTo] measures anew and works with the result, so
    that a measured width of 0 is not kept but measured again at every
    step. *)
Theorem scrollbar_width_is_cached_once_nonzero
    (rc : option Config.ScrollRestorationOptions) (ins : list input)
    (t : ScrollTarget) (w : World) :
  (scrollBarWidth w ≠ 0 -> scrollBarWidth (exec rc ins w) = scrollBarWidth w) /\
  (scrollBarWidth w ≠ 0 -> scrollBarWidth (tryToScrollTo rc t w) = scrollBarWidth w) /\
  (scrollBarWidth w = 0 ->
   scrollBarWidth (tryToScrollTo rc t w) = getScrollbarWidth (dom w)).
Proof.
  split; [| split].
  - revert w. induction ins as [|i r IH]; intros w H; [reflexivity |].
    change (exec rc (i :: r) w) with (exec rc r (step rc i w)).
    rewrite IH; rewrite step_scrollBarWidth; auto.
  - intros H. destruct (tryToScrollTo_keeps rc t w) as (_ & _ & _ & _ & ->).
    apply scrollbar_in_use_cached, H.
  - intros H. destruct (tryToScrollTo_keeps rc t w) as (_ & _ & _ & _ & ->).
    unfold scrollbar_in_use. rewrite H. reflexivity.
Qed.

(** The first step of an attempt measures 15 pixels; the width stays 15
    when the probe later measures something else. *)
Lemma scrollbar_width_is_cached_once_nonzero_witness :
  let w := run None Sample.growing 1 Sample.growing_start in
  let wider :=
    mkDom 0 0 1000 600 1000 1000 985 1000 1000 1085 1085 585 1085 1085 100 70 in
  scrollBarWidth Sample.growing_start = 0 /\
  scrollBarWidth w = 15 /\
  getScrollbarWidth wider = 30 /\
  scrollBarWidth (exec None [Environment 60 wider; TimerFires 2] w) = 15.
Proof.
  intros w wider.
  destruct (scrollbar_width_is_cached_once_nonzero None
              [Environment 60 wider; TimerFires 2] (mkTarget 0 0 0) w) as (H & _).
  split; [reflexivity |]. split; [vm_compute; reflexivity |].
  split; [reflexivity |].
  rewrite H; [vm_compute; reflexivity | vm_compute; discriminate].
Defined.

(** ** What reaches the native primitives *)

Lemma assign_scroll_stamped (S sx sy : value) : stamped_state (assign_scroll S sx sy).
Proof.
  unfold stamped_state, assign_scroll. eexists. split; [reflexivity |].
  split.
  - rewrite lookup_insert_ne by discriminate. rewrite lookup_insert_eq. eauto.
  - rewrite lookup_insert_eq. eauto.
Qed.

Lemma replaceState_new_calls (state : value) (otherArgs : list value) (w : World) :
  exists l, calls (world_of (replaceState state otherArgs w)) = calls w ++ l /\
            Forall (fun tc => well_stamped (snd tc)) l.
Proof.
  destruct (replaceState_cases state otherArgs w) as [(sx & sy & -> & _) | (_ & _ & ->)].
  - eexists. split; [apply originalReplaceState_calls |].
    constructor; [apply assign_scroll_stamped | constructor].
  - exists []. split; [symmetry; apply app_nil_r | constructor].
Qed.

Lemma pushState_new_calls (args : list value) (w : World) :
  exists l, calls (world_of (pushState args w)) = calls w ++ l /\
            Forall (fun tc => well_stamped (snd tc)) l.
Proof.
  unfold pushState, bind.
  destruct (replaceState_cases (history_state w) [VStr ""] w)
    as [(sx & sy & -> & _) | (_ & _ & ->)].
  - unfold originalReplaceState, originalPushState. simpl.
    destruct (native_fault w (OriginalReplaceState _ _)); simpl.
    + eexists. split; [reflexivity |].
      constructor; [apply assign_scroll_stamped | constructor].
    + destruct (native_fault w (OriginalPushState args)); simpl;
        (eexists; split; [rewrite <- app_assoc; reflexivity |];
         constructor; [apply assign_scroll_stamped |];
         constructor; [exact I | constructor]).
  - exists []. split; [symmetry; apply app_nil_r | constructor].
Qed.

Lemma fire_new_calls
    (rc : option Config.ScrollRestorationOptions) (tm : timer) (w : World) :
  exists l, calls (fire rc tm w) = calls w ++ l /\
            Forall (fun tc => well_stamped (snd tc)) l.
Proof.
  unfold fire, run_callback.
  destruct (cb tm);
    match goal with
    | |- context [tryToScrollTo rc ?t (dequeue tm w)] =>
        destruct (may_scroll_dec (dom (dequeue tm w)) (scrollbar_in_use (dequeue tm w))
                    (now (dequeue tm w)) t) as [Hs | Hs];
        [destruct (tryToScrollTo_scrolls_fields rc t _ Hs) as (_ & -> & _)
        |destruct (tryToScrollTo_reschedules_fields rc t _ Hs) as (_ & -> & _)]
    end;
    try (eexists; split; [reflexivity |]; constructor; [exact I | constructor]);
    exists []; (split; [symmetry; apply app_nil_r | constructor]).
Qed.

Lemma step_new_calls
    (rc : option Config.ScrollRestorationOptions) (i : input) (w : World) :
  exists l, calls (step rc i w) = calls w ++ l /\
            Forall (fun tc => well_stamped (snd tc)) l.
Proof.
  destruct i as [| |st back| |state otherArgs|args|h|t d]; simpl.
  - exists []. split; [symmetry; apply app_nil_r | constructor].
  - unfold onPageFinish. destruct (finite_scroll _) as [[sx sy]|]; simpl.
    + exists []. split; [symmetry; apply app_nil_r | constructor].
    + eexists. split; [reflexivity |]. constructor; [exact I | constructor].
  - exists []. split; [| constructor].
    unfold onPopState. destruct (finite_scroll st); simpl; symmetry; apply app_nil_r.
  - apply replaceState_new_calls.
  - apply replaceState_new_calls.
  - apply pushState_new_calls.
  - destruct (due_timer h w); [apply fire_new_calls |].
    exists []. split; [symmetry; apply app_nil_r | constructor].
  - exists []. split; [| constructor].
    destruct (Z.leb (now w) t); simpl; symmetry; apply app_nil_r.
Qed.

(** X9. No unstamped state ever reaches the native [replaceState]: in the
    log of every run of the plugin, each call of the native [replaceState]
    carries a state object that has both [__scrollX] and [__scrollY] as own
    properties, also when the caller passed [null] or a primitive. *)
Theorem native_replaceState_always_gets_stamped_state
    (rc : option Config.ScrollRestorationOptions)
    (t0 : Z) (d0 : Dom) (st0 : value) (back0 : list value)
    (fault0 : call -> option string) (ins : list input) :
  Forall (fun tc => well_stamped (snd tc))
    (calls (exec rc ins (init t0 d0 st0 back0 fault0))).
Proof.
  assert (H : forall w, Forall (fun tc => well_stamped (snd tc)) (calls w) ->
                        Forall (fun tc => well_stamped (snd tc)) (calls (exec rc ins w))).
  { induction ins as [|i r IH]; intros w Hw; [exact Hw |].
    change (exec rc (i :: r) w) with (exec rc r (step rc i w)).
    apply IH. destruct (step_new_calls rc i w) as (l & -> & Hl).
    apply Forall_app. split; assumption. }
  apply H. constructor.
Qed.

(** ** Two triggers for one navigation *)

Section SameTarget.

Variable rc : option Config.ScrollRestorationOptions.
Variable layout : Z -> Dom.
Variables a b : Z.

Local Abbreviation all_aim w := (forall tm, tm ∈ timers w -> aims_at a b (cb tm)).
Local Abbreviation to_target l := (Forall (fun tc : Z * call => snd tc = ScrollTo a b) l).

(** A step for a target at [(a, b)] keeps all timers aimed there; it
    scrolls there or leaves a poll pending. *)
Lemma tryToScrollTo_same_target (t : ScrollTarget) (w : World) :
  x t = a -> y t = b -> all_aim w ->
  all_aim (tryToScrollTo rc t w) /\
  exists l, calls (tryToScrollTo rc t w) = calls w ++ l /\ to_target l /\
            (timers (tryToScrollTo rc t w) ≠ [] \/ l ≠ []).
Proof.
  intros Hx Hy Haim.
  destruct (may_scroll_dec (dom w) (scrollbar_in_use w) (now w) t) as [Hs | Hs].
  - destruct (tryToScrollTo_scrolls_fields rc t w Hs) as (Ht & Hc & _).
    rewrite Ht, Hc, Hx, Hy. split.
    + intros tm Hin. apply Haim. eapply cleared_subset. exact Hin.
    + eexists. split; [reflexivity |]. split; [| right; discriminate].
      constructor; [reflexivity | constructor].
  - destruct (tryToScrollTo_reschedules_fields rc t w Hs) as (Ht & Hc & _).
    rewrite Ht, Hc. split.
    + intros tm Hin. apply elem_of_app in Hin as [Hin | Hin].
      * apply Haim. eapply cleared_subset. exact Hin.
      * apply list_elem_of_singleton in Hin. subst tm. simpl. auto.
    + exists []. split; [symmetry; apply app_nil_r |]. split; [constructor |].
      left. intros E. apply (f_equal (@length _)) in E.
      rewrite length_app in E. simpl in E. lia.
Qed.

Lemma tick_same_target (w w' : World) :
  all_aim w -> tick rc layout w = Some w' ->
  all_aim w' /\
  exists l, calls w' = calls w ++ l /\ to_target l /\ (timers w' ≠ [] \/ l ≠ []).
Proof.
  intros Haim. unfold tick.
  destruct (earliest (timers w)) as [tm|] eqn:E; [| discriminate].
  intros [= <-]. apply earliest_In in E.
  set (wa := set_browser_time _ _ w).
  assert (Hd : forall tm', tm' ∈ timers (dequeue tm wa) -> aims_at a b (cb tm')).
  { intros tm' Hin. apply Haim. simpl in Hin.
    eapply filter_handles_subset. exact Hin. }
  pose proof (Haim tm E) as Htm.
  unfold fire, run_callback. destruct (cb tm) as [sx sy | t]; simpl in Htm;
    destruct Htm as [Hx Hy].
  - apply (tryToScrollTo_same_target _ (dequeue tm wa)); [exact Hx | exact Hy | exact Hd].
  - apply (tryToScrollTo_same_target t (dequeue tm wa)); [exact Hx | exact Hy | exact Hd].
Qed.

Lemma run_same_target (fuel : nat) :
  forall w, all_aim w ->
    exists l, calls (run rc layout fuel w) = calls w ++ l /\ to_target l /\
              (timers w ≠ [] -> timers (run rc layout fuel w) ≠ [] \/ l ≠ []).
Proof.
  induction fuel as [|fuel IH]; intros w Haim.
  - exists []. split; [symmetry; apply app_nil_r |]. split; [constructor | auto].
  - destruct (tick rc layout w) as [w1|] eqn:E.
    + rewrite (run_step _ _ _ _ _ E).
      destruct (tick_same_target w w1 Haim E) as (Haim1 & l1 & Hc1 & Hl1 & Hp1).
      destruct (IH w1 Haim1) as (l2 & Hc2 & Hl2 & Hp2).
      exists (l1 ++ l2). rewrite Hc2, Hc1, app_assoc.
      split; [reflexivity |]. split; [apply Forall_app; auto |].
      intros _. destruct Hp1 as [Hne | Hne].
      * destruct (Hp2 Hne) as [H | H]; [left; exact H |].
        right. intros El. apply app_eq_nil in El as [_ El]. contradiction.
      * right. intros El. apply app_eq_nil in El as [El _]. contradiction.
    + simpl. rewrite E. exists [].
      split; [symmetry; apply app_nil_r |]. split; [constructor | auto].
Qed.

End SameTarget.

(** X10. Two triggers for one navigation do no harm. After a back/forward
    navigation to an entry with the position (a, b), the hooks
    ["page:finish"] and ["app:suspense:resolve"] may both fire: each defers
    a start for (a, b), and however the page behaves and however long the
    event loop runs, every call that leaves the plugin is [scrollTo(a, b)];
    once the event loop has run out of timers, which it does when the poll
    interval makes time advance, at least one such call has been made. *)
Theorem two_triggers_scroll_to_one_position
    (rc : option Config.ScrollRestorationOptions) (layout : Z -> Dom)
    (w : World) (st : value) (back : list value) (a b : Z) (fuel : nat) :
  timers w = [] ->
  finite_scroll st = Some (a, b) ->
  let w2 := exec rc [Traverse st back; PageFinish; PageFinish] w in
  timers w2 = [mkTimer (next_handle w) (now w) (CbBegin a b);
               mkTimer (S (next_handle w)) (now w) (CbBegin a b)] /\
  (exists l, calls (run rc layout fuel w2) = calls w ++ l /\
             Forall (fun tc => snd tc = ScrollTo a b) l /\
             (timers (run rc layout fuel w2) = [] -> l ≠ [])) /\
  (0 < timer_delay (Config.TRY_TO_SCROLL_INTERVAL_MS rc) ->
   timers (run rc layout (pending_weight rc (timers w2)) w2) = []).
Proof.
  intros Hidle Hst w2.
  assert (E2 : w2 =
    set_timers [mkTimer (next_handle w) (now w) (CbBegin a b);
                mkTimer (S (next_handle w)) (now w) (CbBegin a b)]
      (S (S (next_handle w))) (set_poppedState VNull (set_history st back w))).
  { subst w2.
    change (exec rc [Traverse st back; PageFinish; PageFinish] w)
      with (onPageFinish (onPageFinish (onPopState st (set_history st back w)))).
    unfold onPopState. rewrite Hst.
    rewrite (onPageFinish_defers (set_poppedState st (set_history st back w)) a b).
    - rewrite (onPageFinish_defers _ a b).
      + simpl. rewrite Hidle. reflexivity.
      + simpl. exact Hst.
    - simpl. unfold or_else.
      destruct (truthy st) eqn:Ht; [exact Hst |].
      apply finite_scroll_Some in Hst as [Ht' _]. congruence. }
  split; [rewrite E2; reflexivity |].
  split.
  - destruct (run_same_target rc layout a b fuel w2) as (l & Hc & Hl & Hp).
    { rewrite E2. simpl. intros tm Hin.
      apply elem_of_cons in Hin as [-> | Hin]; [simpl; auto |].
      apply list_elem_of_singleton in Hin. subst tm. simpl. auto. }
    exists l. split; [rewrite Hc, E2; reflexivity |]. split; [exact Hl |].
    intros Hdone. destruct Hp as [H | H]; [rewrite E2; discriminate | contradiction | exact H].
  - intros Hdelay. apply (run_drains rc layout Hdelay). reflexivity.
Qed.

(** Back to an entry holding (0, 1000) on the growing page, with both hooks
    firing: the only call is [scrollTo(0, 1000)]. *)
Lemma two_triggers_scroll_to_one_position_witness :
  let w2 := exec None [Traverse (Sample.stored 0 1000) []; PageFinish; PageFinish]
              (Sample.fresh (Sample.growing 0) Sample.router_state) in
  (exists l, calls (run None Sample.growing 20 w2) = [] ++ l /\
             Forall (fun tc => snd tc = ScrollTo 0 1000) l) /\
  calls (run None Sample.growing 20 w2) = [(250, ScrollTo 0 1000)] /\
  timers (run None Sample.growing 20 w2) = [].
Proof.
  intros w2.
  destruct (two_triggers_scroll_to_one_position None Sample.growing
              (Sample.fresh (Sample.growing 0) Sample.router_state)
              (Sample.stored 0 1000) [] 0 1000 20)
    as (_ & (l & Hc & Hl & _) & _); [reflexivity | vm_compute; reflexivity |].
  split; [exists l; split; [exact Hc | exact Hl] |].
  split; vm_compute; reflexivity.
Defined.

(** ** Options that are set *)

(** X11. A number the user sets to something other than 0 reaches the
    plugin as it is, through the defaults of [src/module.ts] and the [||] of
    the plugin, negative numbers included; the debug switch reaches it as
    set and is off when left out. *)
Theorem nonzero_options_are_used
    (u : Config.ScrollRestorationOptions) (z : Z) :
  z ≠ 0 ->
  (Config.scrollRestorationTimeoutMs u = Some z ->
   Config.SCROLL_RESTORATION_TIMEOUT_MS
     (Config.setup (Config.resolve_options (Some u))) = z) /\
  (Config.tryToScrollIntervalMs u = Some z ->
   Config.TRY_TO_SCROLL_INTERVAL_MS
     (Config.setup (Config.resolve_options (Some u))) = z) /\
  Config.DEBUG (Config.setup (Config.resolve_options (Some u))) =
    default false (Config.debug u) /\
  Config.DEBUG (Config.setup (Config.resolve_options None)) = false.
Proof.
  intros Hz.
  unfold Config.SCROLL_RESTORATION_TIMEOUT_MS, Config.TRY_TO_SCROLL_INTERVAL_MS,
    Config.DEBUG, Config.num_or. simpl.
  split; [intros ->; simpl; destruct (Z.eqb_spec z 0); [contradiction | reflexivity] |].
  split; [intros ->; simpl; destruct (Z.eqb_spec z 0); [contradiction | reflexivity] |].
  split; [destruct (Config.debug u); reflexivity | reflexivity].
Qed.

Lemma nonzero_options_are_used_witness :
  Config.SCROLL_RESTORATION_TIMEOUT_MS
    (Config.setup (Config.resolve_options
       (Some (Config.mkOptions (Some (-5)) None (Some true))))) = -5.
Proof.
  destruct (nonzero_options_are_used
              (Config.mkOptions (Some (-5)) None (Some true)) (-5)) as (H & _);
    [discriminate |].
  apply H. reflexivity.
Defined.

(** X12. A negative timeout turns the waiting off: the deadline then lies
    before the start of the attempt, so that the first step of every
    attempt calls [scrollTo] for its target at once and sets no timer, also
    on a page that is too short for the target. *)
Theorem negative_timeout_scrolls_at_once
    (rc : option Config.ScrollRestorationOptions) (sx sy : Z) (w : World) :
  Config.SCROLL_RESTORATION_TIMEOUT_MS rc < 0 ->
  calls (run_callback rc (CbBegin sx sy) w) = calls w ++ [(now w, ScrollTo sx sy)] /\
  timers (run_callback rc (CbBegin sx sy) w) = timers (clearTimeout (timeoutHandle w) w).
Proof.
  intros HT. simpl.
  destruct (tryToScrollTo_scrolls_fields rc
              (mkTarget sx sy (now w + Config.SCROLL_RESTORATION_TIMEOUT_MS rc)) w)
    as (Ht & Hc & _).
  - right. simpl. lia.
  - split; [exact Hc | exact Ht].
Qed.

(** The short page never reaches (0, 5000); with a timeout of -5 ms the
    attempt scrolls there in its first step. *)
Lemma negative_timeout_scrolls_at_once_witness :
  let rc := Some (Config.mkOptions (Some (-5)) None None) in
  Sample.reachable_height (Sample.short 0) = 800 /\
  calls (run_callback rc (CbBegin 0 5000) (Sample.fresh (Sample.short 0) VNull)) =
    [(0, ScrollTo 0 5000)] /\
  timers (run_callback rc (CbBegin 0 5000) (Sample.fresh (Sample.short 0) VNull)) = [].
Proof.
  intros rc.
  destruct (negative_timeout_scrolls_at_once rc 0 5000
              (Sample.fresh (Sample.short 0) VNull)) as (Hc & Ht); [reflexivity |].
  split; [reflexivity |]. split; [exact Hc | exact Ht].
Defined.

(** ** When the wrappers throw on their own *)

Lemma replaceState_TypeError_iff (state : value) (otherArgs : list value) (w : World) :
  (exists k w', replaceState state otherArgs w = Thrown (TypeError k) w') <->
  isMounted w = false /\ (history_state w = VUndefined \/ history_state w = VNull).
Proof.
  split.
  - intros (k & w' & E).
    destruct (replaceState_cases state otherArgs w) as [(sx & sy & E' & _) | (Hm & Hx & _)].
    + rewrite E' in E. unfold originalReplaceState in E.
      destruct (native_fault w _); discriminate.
    + split; [exact Hm | apply (get_prop_None _ "__scrollX"), Hx].
  - intros [Hm Hn]. exists "__scrollX", w.
    apply replaceState_unmounted_nullish; [exact Hm |].
    apply get_prop_None. exact Hn.
Qed.

(** X13. The failure the wrappers add is exactly this one: the wrapped
    [replaceState], the wrapped [pushState] and the ["beforeunload"]
    listener throw a TypeError of their own if and only if the application
    is not mounted and [history.state] is [null] or [undefined]; the error
    comes from reading [__scrollX], before anything has been changed or
    passed on. *)
Theorem wrappers_throw_TypeError_iff_unmounted_without_state
    (state : value) (otherArgs args : list value) (w : World) :
  let unmounted_without_state :=
    isMounted w = false /\ (history_state w = VUndefined \/ history_state w = VNull) in
  ((exists k w', replaceState state otherArgs w = Thrown (TypeError k) w') <->
   unmounted_without_state) /\
  ((exists k w', pushState args w = Thrown (TypeError k) w') <->
   unmounted_without_state) /\
  ((exists k w', onBeforeUnload w = Thrown (TypeError k) w') <->
   unmounted_without_state) /\
  (unmounted_without_state ->
   replaceState state otherArgs w = Thrown (TypeError "__scrollX") w /\
   pushState args w = Thrown (TypeError "__scrollX") w /\
   onBeforeUnload w = Thrown (TypeError "__scrollX") w).
Proof.
  intros cond. subst cond.
  assert (Hthrow : forall st oa,
            isMounted w = false /\ (history_state w = VUndefined \/ history_state w = VNull) ->
            replaceState st oa w = Thrown (TypeError "__scrollX") w).
  { intros st oa [Hm Hn]. apply replaceState_unmounted_nullish; [exact Hm |].
    apply get_prop_None. exact Hn. }
  split; [apply replaceState_TypeError_iff |].
  split; [| split].
  - split.
    + intros (k & w' & E). unfold pushState, bind in E.
      destruct (replaceState (history_state w) [VStr ""] w) as [[] w1 | e w1] eqn:Er.
      * unfold originalPushState in E. destruct (native_fault w1 _); discriminate.
      * injection E as -> ->.
        apply (replaceState_TypeError_iff (history_state w) [VStr ""] w). eauto.
    + intros H. exists "__scrollX", w. unfold pushState, bind.
      rewrite (Hthrow _ _ H). reflexivity.
  - unfold onBeforeUnload. apply replaceState_TypeError_iff.
  - intros H. split; [apply Hthrow, H |].
    split; [unfold pushState, bind | unfold onBeforeUnload];
      rewrite (Hthrow _ _ H); reflexivity.
Qed.

(** A page that is unloaded before it was mounted, on an entry without a
    state. *)
Lemma wrappers_throw_TypeError_iff_unmounted_without_state_witness :
  onBeforeUnload (Sample.fresh (Sample.growing 0) VNull) =
  Thrown (TypeError "__scrollX") (Sample.fresh (Sample.growing 0) VNull).
Proof.
  destruct (wrappers_throw_TypeError_iff_unmounted_without_state (VObj ∅) [] []
              (Sample.fresh (Sample.growing 0) VNull)) as (_ & _ & _ & H).
  apply H. split; [reflexivity | right; reflexivity].
Defined.

(** ** Deferred starts are not lost *)

Lemma starts_safe_frame (w w' : World) :
  timers w' = timers w -> next_handle w' = next_handle w ->
  timeoutHandle w' = timeoutHandle w -> starts_safe w -> starts_safe w'.
Proof. unfold starts_safe. intros -> -> ->. auto. Qed.

Lemma starts_safe_init (t0 : Z) (d0 : Dom) (st0 : value) (back0 : list value)
    (fault0 : call -> option string) :
  starts_safe (init t0 d0 st0 back0 fault0).
Proof.
  split; simpl; [intros h; discriminate |].
  intros tm sx sy Hin. inversion Hin.
Qed.

Lemma dequeue_starts_safe (tm : timer) (w : World) :
  starts_safe w -> starts_safe (dequeue tm w).
Proof.
  intros [Hh Hb]. split; [exact Hh |].
  intros tm' sx sy Hin. simpl in Hin. apply filter_handles_subset in Hin.
  exact (Hb tm' sx sy Hin).
Qed.

(** [clearTimeout(timeoutHandle)] does not touch a deferred start. *)
Lemma start_survives_clearing (w : World) (tm : timer) (sx sy : Z) :
  starts_safe w -> tm ∈ timers w -> cb tm = CbBegin sx sy ->
  tm ∈ timers (clearTimeout (timeoutHandle w) w).
Proof.
  intros [_ Hb] Hin Hcb. rewrite clearTimeout_timers.
  destruct (timeoutHandle w) as [h|] eqn:Hh; [| exact Hin].
  apply list_elem_of_filter. split; [| exact Hin].
  destruct (Hb tm sx sy Hin Hcb) as [_ Hne]. congruence.
Qed.

Section Starts.

Variable rc : option Config.ScrollRestorationOptions.

Lemma tryToScrollTo_starts_safe (t : ScrollTarget) (w : World) :
  starts_safe w -> starts_safe (tryToScrollTo rc t w).
Proof.
  intros Hs. pose proof Hs as [Hh Hb].
  destruct (may_scroll_dec (dom w) (scrollbar_in_use w) (now w) t) as [Hm | Hm].
  - destruct (tryToScrollTo_scrolls_fields rc t w Hm) as (Ht & _ & _ & Hn & Hth).
    unfold starts_safe. rewrite Ht, Hn, Hth. split; [exact Hh |].
    intros tm sx sy Hin. apply Hb. eapply cleared_subset. exact Hin.
  - destruct (tryToScrollTo_reschedules_fields rc t w Hm) as (Ht & _ & _ & Hn & Hth).
    unfold starts_safe. rewrite Ht, Hn, Hth. split.
    + intros h [= <-]. lia.
    + intros tm sx sy Hin Hcb. apply elem_of_app in Hin as [Hin | Hin].
      * apply cleared_subset in Hin. destruct (Hb tm sx sy Hin Hcb) as [Hlt _].
        split; [lia |]. intros [= E]. lia.
      * apply list_elem_of_singleton in Hin. subst tm. discriminate Hcb.
Qed.

Lemma tryToScrollTo_keeps_start (t : ScrollTarget) (w : World) (tm : timer) (sx sy : Z) :
  starts_safe w -> tm ∈ timers w -> cb tm = CbBegin sx sy ->
  tm ∈ timers (tryToScrollTo rc t w).
Proof.
  intros Hs Hin Hcb. pose proof (start_survives_clearing w tm sx sy Hs Hin Hcb) as Hc.
  destruct (may_scroll_dec (dom w) (scrollbar_in_use w) (now w) t) as [Hm | Hm].
  - destruct (tryToScrollTo_scrolls_fields rc t w Hm) as (-> & _). exact Hc.
  - destruct (tryToScrollTo_reschedules_fields rc t w Hm) as (-> & _).
    apply elem_of_app. left. exact Hc.
Qed.

Lemma step_starts_safe (i : input) (w : World) :
  starts_safe w -> starts_safe (step rc i w).
Proof.
  intros Hs.
  destruct i as [| |st back| |state otherArgs|args|h|t d];
    try (match goal with
         | |- context [step _ ?i w] =>
             destruct (step_keeps_timers rc i w I) as (Ht & Hn & Hh)
         end; exact (starts_safe_frame w _ Ht Hn Hh Hs)).
  - pose proof Hs as [Hh Hb]. simpl.
    destruct (onPageFinish_timers w) as (Hth & _ & [[Ht Hn] | (sx & sy & Ht & Hn)]).
    + exact (starts_safe_frame w _ Ht Hn Hth Hs).
    + unfold starts_safe. rewrite Ht, Hn, Hth. split.
      * intros h E. specialize (Hh h E). lia.
      * intros tm sx' sy' Hin Hcb. apply elem_of_app in Hin as [Hin | Hin].
        -- destruct (Hb tm sx' sy' Hin Hcb) as [Hlt Hne]. split; [lia | exact Hne].
        -- apply list_elem_of_singleton in Hin. subst tm. simpl.
           split; [lia |]. intros E. specialize (Hh _ E). lia.
  - simpl. destruct (due_timer h w) as [tm|]; [| exact Hs].
    unfold fire, run_callback.
    destruct (cb tm); apply tryToScrollTo_starts_safe, dequeue_starts_safe, Hs.
Qed.

Lemma exec_starts_safe (ins : list input) (w : World) :
  starts_safe w -> starts_safe (exec rc ins w).
Proof.
  revert w. induction ins as [|i r IH]; intros w Hs; [exact Hs |].
  change (exec rc (i :: r) w) with (exec rc r (step rc i w)).
  apply IH, step_starts_safe, Hs.
Qed.

End Starts.

(** X14. A navigation-finished trigger is never lost. In every state the
    plugin can reach, the start that [onPageFinish] deferred stays pending
    through every other reaction: the handle that [tryToScrollTo] clears is
    never the handle of a deferred start, so that polls, other starts,
    history calls and further triggers leave it in place until the timer
    itself fires. *)
Theorem deferred_start_stays_pending
    (rc : option Config.ScrollRestorationOptions)
    (t0 : Z) (d0 : Dom) (st0 : value) (back0 : list value)
    (fault0 : call -> option string) (ins : list input)
    (tm : timer) (sx sy : Z) (i : input) :
  let w := exec rc ins (init t0 d0 st0 back0 fault0) in
  tm ∈ timers w ->
  cb tm = CbBegin sx sy ->
  i ≠ TimerFires (handle tm) ->
  tm ∈ timers (step rc i w).
Proof.
  intros w Hin Hcb Hi.
  assert (Hs : starts_safe w) by apply exec_starts_safe, starts_safe_init.
  destruct i as [| |st back| |state otherArgs|args|h|t d];
    try (match goal with
         | |- context [step _ ?i w] =>
             destruct (step_keeps_timers rc i w I) as (Ht & _)
         end; rewrite Ht; exact Hin).
  - simpl. destruct (onPageFinish_timers w) as (_ & _ & [[Ht _] | (a & b & Ht & _)]);
      rewrite Ht; [exact Hin | apply elem_of_app; left; exact Hin].
  - simpl. destruct (due_timer h w) as [tm'|] eqn:E; [| exact Hin].
    apply due_timer_inv in E as (_ & Hh & _).
    assert (Hd : tm ∈ timers (dequeue tm' w)).
    { simpl. apply list_elem_of_filter. split; [| exact Hin].
      intros Heq. apply Hi. congruence. }
    unfold fire, run_callback.
    destruct (cb tm');
      apply (tryToScrollTo_keeps_start rc _ (dequeue tm' w) tm sx sy);
      try assumption; apply dequeue_starts_safe, Hs.
Qed.

(** An attempt for (0, 5000) is polling on timer 2 when a new trigger
    defers a start on timer 3; the poll of timer 2, which clears and sets
    [timeoutHandle], and a further trigger both leave timer 3 pending. *)
Lemma deferred_start_stays_pending_witness :
  let ins := [PageFinish; TimerFires 1; Traverse (Sample.stored 0 2000) []; PageFinish;
              Environment 60 (Sample.short 60)] in
  let w := exec Sample.quick ins (init 0 (Sample.short 0) (Sample.stored 0 5000) []
                                    Sample.no_fault) in
  due_timer 2 w = Some (mkTimer 2 50 (CbPoll (mkTarget 0 5000 300))) /\
  mkTimer 3 0 (CbBegin 0 2000) ∈ timers (step Sample.quick (TimerFires 2) w) /\
  mkTimer 3 0 (CbBegin 0 2000) ∈ timers (step Sample.quick PageFinish w).
Proof.
  intros ins w.
  assert (Hin : mkTimer 3 0 (CbBegin 0 2000) ∈ timers w)
    by (apply list_elem_of_In; vm_compute; right; left; reflexivity).
  split; [vm_compute; reflexivity |].
  split.
  - apply (deferred_start_stays_pending Sample.quick 0 (Sample.short 0)
             (Sample.stored 0 5000) [] Sample.no_fault ins _ 0 2000 (TimerFires 2) Hin);
      [reflexivity | discriminate].
  - apply (deferred_start_stays_pending Sample.quick 0 (Sample.short 0)
             (Sample.stored 0 5000) [] Sample.no_fault ins _ 0 2000 PageFinish Hin);
      [reflexivity | discriminate].
Defined.

(** ** Leaving a page before it is mounted *)

(** X15. Before the application is mounted, [pushState] does not clobber
    the entry it leaves: the entry left behind can be restored to exactly
    the position it could be restored to before, whatever the live offsets
    are, and the new entry's state is the caller's first argument. *)
Theorem unmounted_pushState_keeps_outgoing_position (args : list value) (w : World) :
  isMounted w = false ->
  history_state w ≠ VNull -> history_state w ≠ VUndefined ->
  (forall c, native_fault w c = None) ->
  exists left_behind,
    history_back (world_of (pushState args w)) = left_behind :: history_back w /\
    finite_scroll left_behind = finite_scroll (history_state w) /\
    (forall k, k ≠ "__scrollX" -> k ≠ "__scrollY" ->
       own_props left_behind !! k = own_props (history_state w) !! k) /\
    history_state (world_of (pushState args w)) = default VUndefined (head args).
Proof.
  intros Hm Hn Hu Hf.
  destruct (get_prop (history_state w) "__scrollX") as [sx|] eqn:Hx;
    [| apply get_prop_None in Hx; tauto].
  destruct (get_prop (history_state w) "__scrollY") as [sy|] eqn:Hy;
    [| apply get_prop_None in Hy; tauto].
  exists (assign_scroll (history_state w) sx sy).
  unfold pushState, bind.
  rewrite (replaceState_unmounted _ [VStr ""] w sx sy Hm Hx Hy).
  rewrite originalReplaceState_ok by apply Hf.
  unfold originalPushState. simpl. rewrite Hf. simpl.
  split; [reflexivity |].
  split; [rewrite finite_scroll_assign; symmetry;
          apply finite_scroll_of_fields; assumption |].
  split; [intros k Hkx Hky; apply assign_scroll_other; assumption | reflexivity].
Qed.

(** The entry holds (120, 340), the viewport stands at (0, 0), and the
    router pushes before the application is mounted. *)
Lemma unmounted_pushState_keeps_outgoing_position_witness :
  exists left_behind,
    history_back (world_of (pushState [VObj ∅; VStr ""; VStr "/next"]
                              (Sample.fresh (Sample.growing 0) (Sample.stored 120 340)))) =
      [left_behind] /\
    finite_scroll left_behind = Some (120, 340).
Proof.
  destruct (unmounted_pushState_keeps_outgoing_position [VObj ∅; VStr ""; VStr "/next"]
              (Sample.fresh (Sample.growing 0) (Sample.stored 120 340)))
    as (lb & Hb & Hp & _); [reflexivity | discriminate | discriminate | reflexivity |].
  exists lb. split; [exact Hb |].
  etransitivity; [exact Hp | vm_compute; reflexivity].
Defined.
